(** * Verification of update_licenses.py

    A shallow embedding of the license-header rewriting script
    [update_licenses.py]: Python's backtracking regular-expression engine
    restricted to the constructs of [MIT_LICENSE_PATTERN], [re.sub] with
    [count=1], the per-file rewriter [update_file], the path filter
    [should_process_file] and the traversal loop of [main], over a model of
    the file system with its failures.

    Text is modelled as a list of [ascii]; a character stands for the code
    point U+0000..U+00FF with the same number, and the character classes of
    the pattern are given exactly on that range. *)

From Stdlib Require Import List String Ascii Bool Arith Lia.
Import ListNotations.
Open Scope list_scope.

Definition text := list ascii.

Definition chr (n : nat) : ascii := ascii_of_nat n.
Definition nl : ascii := chr 10.
Definition cr : ascii := chr 13.

(** String literals of the source, as character lists. *)
Definition lit (s : string) : text := list_ascii_of_string s.

(** ** Regular expressions, as Python's [re] (sre) matches them *)

Inductive greed := Greedy | Lazy.

Inductive re :=
| Eps
| Lit (c : ascii)
| Cls (p : ascii -> bool)
| Cat (r1 r2 : re)
| Rep (g : greed) (r : re).

(** One repetition [r*] or [r*?], given the matcher [body] of [r] and the
    continuation [k]: a greedy loop tries one more iteration before the
    continuation, a lazy loop the continuation first.  An iteration that
    consumed nothing fails, as in sre; the counter [n] bounds the number of
    iterations. *)
Definition rep_loop (g : greed) (body : nat -> (nat -> option nat) -> option nat)
    (k : nat -> option nat) : nat -> nat -> option nat :=
  fix loop (n : nat) (i : nat) {struct n} : option nat :=
    match n with
    | O => k i
    | S n' =>
        match g with
        | Greedy =>
            match body i (fun j => if i <? j then loop n' j else None) with
            | Some e => Some e
            | None => k i
            end
        | Lazy =>
            match k i with
            | Some e => Some e
            | None => body i (fun j => if i <? j then loop n' j else None)
            end
        end
    end.

Section Matcher.
(** The subject string. *)
Variable t : text.

(** Backtracking matcher in continuation-passing style, as sre runs a
    pattern: [m r i k] matches [r] at index [i] and passes the end index
    to the continuation [k]; the first success in priority order wins.
    A repetition starts with the counter [S (length t - i)]: every
    iteration consumes a character, so the counter never runs out before
    the text does. *)
Fixpoint m (r : re) (i : nat) (k : nat -> option nat) {struct r} : option nat :=
  match r with
  | Eps => k i
  | Lit c =>
      match nth_error t i with
      | Some c' => if Ascii.eqb c c' then k (S i) else None
      | None => None
      end
  | Cls p =>
      match nth_error t i with
      | Some c' => if p c' then k (S i) else None
      | None => None
      end
  | Cat r1 r2 => m r1 i (fun j => m r2 j k)
  | Rep g r1 => rep_loop g (m r1) k (S (List.length t - i)) i
  end.

(** [pattern.search(t)]: the leftmost index at which the pattern matches,
    with the end index of the match found there. *)
Fixpoint search_from (r : re) (n i : nat) : option (nat * nat) :=
  match n with
  | O => None
  | S n' =>
      match m r i (fun j => Some j) with
      | Some j => Some (i, j)
      | None => search_from r n' (S i)
      end
  end.

Definition search (r : re) : option (nat * nat) :=
  search_from r (S (List.length t)) 0.
End Matcher.

(** [pattern.sub(repl, t, count=1)] for a replacement string without
    backslashes (so it is inserted literally): the first match is replaced,
    the text around it is kept. *)
Definition sub1 (r : re) (repl : text) (t : text) : text :=
  match search t r with
  | Some (i, j) => firstn i t ++ repl ++ skipn j t
  | None => t
  end.

(** ** Character classes of the pattern *)

(** [\s] on str patterns: [str.isspace], i.e. U+0009..U+000D,
    U+001C..U+0020, U+0085 and U+00A0 in the modelled range. *)
Definition is_space (c : ascii) : bool :=
  let n := nat_of_ascii c in
  ((9 <=? n) && (n <=? 13)) || ((28 <=? n) && (n <=? 32)) || (n =? 133) || (n =? 160).

(** [\d]: decimal digits; in the modelled range only U+0030..U+0039. *)
Definition is_digit (c : ascii) : bool :=
  let n := nat_of_ascii c in (48 <=? n) && (n <=? 57).

(** [.] under [re.DOTALL]: any character, newline included. *)
Definition any_char (_ : ascii) : bool := true.

Fixpoint cats (rs : list re) : re :=
  match rs with
  | [] => Eps
  | [r] => r
  | r :: rs' => Cat r (cats rs')
  end.

Definition lits (s : string) : re := cats (map Lit (lit s)).

Definition ws : re := Rep Greedy (Cls is_space).

(** ** The constants of the script *)

(** [MIT_LICENSE_PATTERN]:
    [/\*\*\s*\n\s*\*\s*Copyright \(c\) \d{4} Philip L\. Giacalone\s*\n\s*\*\s*\n]
    [(\s*\*.*?\n)*?]
    [\s*\*/\s*\n]
    compiled with [re.MULTILINE | re.DOTALL] ([MULTILINE] has no effect:
    the pattern has no [^] or [$]). *)
Definition MIT_LICENSE_PATTERN : re :=
  cats [ lits "/**"; ws; Lit nl; ws; Lit "*"; ws;
         lits "Copyright (c) ";
         Cls is_digit; Cls is_digit; Cls is_digit; Cls is_digit;
         lits " Philip L. Giacalone"; ws; Lit nl; ws; Lit "*"; ws; Lit nl;
         Rep Lazy (cats [ws; Lit "*"; Rep Lazy (Cls any_char); Lit nl]);
         ws; lits "*/"; ws; Lit nl ].

Definition quote : string := String (chr 34) EmptyString.

Fixpoint join_lines (ls : list string) : string :=
  match ls with
  | [] => EmptyString
  | [l] => l
  | l :: ls' => (l ++ String nl EmptyString ++ join_lines ls')%string
  end.

(** [PROPRIETARY_HEADER]: the triple-quoted string of the source, one
    element per line. *)
Definition PROPRIETARY_HEADER : text := lit (join_lines [
  "/**";
  " * Copyright (c) 2025 Philip L. Giacalone. All Rights Reserved.";
  " *";
  " * This software and associated documentation files (the " ++ quote ++ "Software" ++ quote ++ ") are the";
  " * proprietary and confidential property of Philip L. Giacalone.";
  " *";
  " * Unauthorized copying, modification, distribution, or use of this Software,";
  " * via any medium, is strictly prohibited and may be subject to civil and";
  " * criminal penalties.";
  " *";
  " * The Software is protected by copyright laws and international copyright";
  " * treaties, as well as other intellectual property laws and treaties.";
  " */"])%string.

(** The replacement string [PROPRIETARY_HEADER + '\n\n']. *)
Definition REPLACEMENT : text := PROPRIETARY_HEADER ++ [nl; nl].

(** The signature ['Permission is hereby granted']. *)
Definition SIGNATURE : text := lit "Permission is hereby granted".

(** Python's [sub in s] for strings. *)
Fixpoint is_prefix (p s : text) : bool :=
  match p, s with
  | [], _ => true
  | _ :: _, [] => false
  | a :: p', b :: s' => Ascii.eqb a b && is_prefix p' s'
  end.

Fixpoint contains (p s : text) : bool :=
  is_prefix p s || match s with [] => false | _ :: s' => contains p s' end.

(** The text transformation of [update_file]: [new_content]. *)
Definition substitute (content : text) : text :=
  sub1 MIT_LICENSE_PATTERN REPLACEMENT content.

(** ** File system *)

(** Python exceptions the file operations raise (all subclasses of
    [Exception]). *)
Inductive exn :=
| FileNotFoundError
| IsADirectoryError
| PermissionError
| UnicodeDecodeError
| NoSpaceError
| OtherOSError.

(** [contents]: what a regular file holds: the characters its UTF-8 bytes encode, or
    bytes that are not valid UTF-8. *)
Inductive contents := Text (cs : text) | Undecodable.

(** A regular file (an inode): what it holds, the permissions the process
    has on it, and the number of characters the device still accepts
    ([None]: unbounded). *)
Record file := mkFile {
  payload : contents;
  readable : bool;
  writable : bool;
  quota : option nat }.

(** Inode numbers. *)
Definition ino := nat.

(** Directory entries under the root, as [open] and [Path.is_file] see
    them: a symbolic link appears as what it resolves to.  A regular file is
    named by its inode, so hard links, and a symbolic link and its target,
    name the same file, and what is written through one name is read
    through every other.  [CharDevice cs] is a character device that reads
    as [cs] and discards what is written to it ([/dev/null] has [cs = []]);
    [Dangling] is a symbolic link whose target is missing; [OtherEntry] is
    an entry [open] refuses with another [OSError] (a socket, a loop of
    symbolic links).  FIFOs are outside the model: [is_file()] is false for
    them, so [main] skips them, but opening one blocks until a writer
    opens it. *)
Inductive node :=
| RegFile (i : ino)
| Directory
| CharDevice (cs : text)
| Dangling
| OtherEntry.

(** A path relative to the root ['.'], as its list of components. *)
Definition path := list string.

(** The tree under the root: every entry, in traversal order. *)
Definition fsys := list (path * node).

Definition path_eqb (p q : path) : bool :=
  if list_eq_dec string_dec p q then true else false.

Fixpoint lookup (p : path) (fs : fsys) : option node :=
  match fs with
  | [] => None
  | (q, n) :: fs' => if path_eqb p q then Some n else lookup p fs'
  end.

(** The tree after the entry at [p] is replaced by [n] (or added, when
    there is none). *)
Fixpoint set_node (p : path) (n : node) (fs : fsys) : fsys :=
  match fs with
  | [] => [(p, n)]
  | (q, n') :: fs' => if path_eqb p q then (q, n) :: fs' else (q, n') :: set_node p n fs'
  end.

(** The regular files, by inode. *)
Definition store := list (ino * file).

Fixpoint get_file (i : ino) (s : store) : option file :=
  match s with
  | [] => None
  | (j, f) :: s' => if Nat.eqb i j then Some f else get_file i s'
  end.

(** The store after the file of inode [i] is replaced by [f] (or added). *)
Fixpoint set_file (i : ino) (f : file) (s : store) : store :=
  match s with
  | [] => [(i, f)]
  | (j, f') :: s' => if Nat.eqb i j then (j, f) :: s' else (j, f') :: set_file i f s'
  end.

(** An inode number not in use. *)
Definition fresh (s : store) : ino := S (list_max (map fst s)).

(** [str(path)] on POSIX: components joined by ['/']. *)
Fixpoint str_path (p : path) : string :=
  match p with
  | [] => "."%string
  | [c] => c
  | c :: p' => (c ++ "/" ++ str_path p')%string
  end.

Definition file_name (p : path) : string := last p EmptyString.

(** Observable events, in order: the opening of a path for reading or for
    writing, and the lines the script prints. *)
Inductive event :=
| OpenRead (p : path)
| OpenWrite (p : path)
| PrintUpdated (p : path)          (* Updated: <path> *)
| PrintError (p : path) (e : exn)  (* Error processing <path>: <e> *)
| PrintTotal (n : nat).            (* Total files updated: <n> *)

Record St := mkSt { fs : fsys; inodes : store; log : list event }.

(** ** A state and exception monad *)

Definition M (A : Type) := St -> (A + exn) * St.

Definition ret {A} (x : A) : M A := fun st => (inl x, st).
Definition bind {A B} (c : M A) (f : A -> M B) : M B :=
  fun st => match c st with
            | (inl x, st') => f x st'
            | (inr e, st') => (inr e, st')
            end.
Definition raise {A} (e : exn) : M A := fun st => (inr e, st).
Definition try_except {A} (c : M A) (h : exn -> M A) : M A :=
  fun st => match c st with
            | (inl x, st') => (inl x, st')
            | (inr e, st') => h e st'
            end.

Notation "x <- c1 ;; c2" := (bind c1 (fun x => c2))
  (at level 61, c1 at next level, right associativity).
Notation "c1 ;; c2" := (bind c1 (fun _ => c2))
  (at level 61, right associativity).

Definition emit (e : event) : M unit :=
  fun st => (inl tt, mkSt (fs st) (inodes st) (log st ++ [e])).

Definition get_fs : M fsys := fun st => (inl (fs st), st).

Definition get_inode (i : ino) : M (option file) :=
  fun st => (inl (get_file i (inodes st)), st).

Definition put_file (i : ino) (f : file) : M unit :=
  fun st => (inl tt, mkSt (fs st) (set_file i f (inodes st)) (log st)).

(** A new regular file holding [s], entered at [p] (for a dangling link:
    the file is created at its target, and [p] now resolves to it). *)
Definition create (p : path) (s : text) : M unit :=
  fun st => let i := fresh (inodes st) in
    (inl tt, mkSt (set_node p (RegFile i) (fs st))
                  (set_file i (mkFile (Text s) true true None) (inodes st)) (log st)).

(** Universal-newline decoding of text mode ([newline=None]): ["\r\n"]
    and a lone ["\r"] are read as ["\n"]. *)
Fixpoint universal_newlines (cs : text) : text :=
  match cs with
  | [] => []
  | c :: cs' =>
      if Ascii.eqb c cr then
        match cs' with
        | c2 :: cs'' => if Ascii.eqb c2 nl then nl :: universal_newlines cs''
                        else nl :: universal_newlines cs'
        | [] => [nl]
        end
      else c :: universal_newlines cs'
  end.

(** [with open(filepath, 'r', encoding='utf-8') as f: content = f.read()] *)
Definition read_text (p : path) : M text :=
  emit (OpenRead p) ;;
  fs0 <- get_fs ;;
  match lookup p fs0 with
  | None | Some Dangling => raise FileNotFoundError
  | Some Directory => raise IsADirectoryError
  | Some OtherEntry => raise OtherOSError
  | Some (CharDevice cs) => ret (universal_newlines cs)
  | Some (RegFile i) =>
      o <- get_inode i ;;
      match o with
      | None => raise FileNotFoundError
      | Some f =>
          if readable f then
            match payload f with
            | Text cs => ret (universal_newlines cs)
            | Undecodable => raise UnicodeDecodeError
            end
          else raise PermissionError
      end
  end.

(** [with open(filepath, 'w', encoding='utf-8') as f: f.write(s)]: opening
    truncates the file (or creates it); the write then stores the text
    (["\n"] is written as [os.linesep], ["\n"] on POSIX), or as much of it
    as the device accepts before [write] raises.  The file is the inode the
    path names: every other name of it sees the new text. *)
Definition write_text (p : path) (s : text) : M unit :=
  emit (OpenWrite p) ;;
  fs0 <- get_fs ;;
  match lookup p fs0 with
  | None | Some Dangling => create p s
  | Some Directory => raise IsADirectoryError
  | Some OtherEntry => raise OtherOSError
  | Some (CharDevice _) => ret tt
  | Some (RegFile i) =>
      o <- get_inode i ;;
      match o with
      | None => raise FileNotFoundError
      | Some f =>
          if writable f then
            match quota f with
            | Some q =>
                if q <? List.length s then
                  put_file i (mkFile (Text (firstn q s)) (readable f) true (Some 0)) ;;
                  raise NoSpaceError
                else put_file i (mkFile (Text s) (readable f) true (Some (q - List.length s)))
            | None => put_file i (mkFile (Text s) (readable f) true None)
            end
          else raise PermissionError
      end
  end.

Definition text_eqb (a b : text) : bool :=
  if list_eq_dec ascii_dec a b then true else false.

(** ** The script *)

(** The [try] block of [update_file]. *)
Definition update_file_body (p : path) : M bool :=
  content <- read_text p ;;
  if contains SIGNATURE content then
    let new_content := substitute content in
    if negb (text_eqb new_content content) then
      write_text p new_content ;; ret true
    else ret false
  else ret false.

(** [update_file(filepath)]: [except Exception as e] reports the error and
    falls through to [return False]. *)
Definition update_file (p : path) : M bool :=
  try_except (update_file_body p) (fun e => emit (PrintError p e) ;; ret false).

Definition exclusions : list string :=
  [ "node_modules"; "dist"; "electron/node_modules"; "electron/release";
    "electron/app"; ".git"; "update_licenses.py"; "update_licenses.sh" ]%string.

(** [should_process_file(filepath)] *)
Definition should_process_file (p : path) : bool :=
  negb (existsb (fun excl => contains (lit excl) (lit (str_path p))) exclusions).

Definition extensions : list string := [ ".ts"; ".tsx"; ".js"; ".jsx" ]%string.

Definition ends_with (suffix s : string) : bool :=
  is_prefix (rev (lit suffix)) (rev (lit s)).

(** [Path('.').rglob('*' + ext)] (pathlib): every entry under the root, at
    any depth, whose name matches the glob ['*' + ext], i.e. ends with
    [ext] ([ext] has no wildcard), files and directories alike. *)
Definition rglob (ext : string) (fs0 : fsys) : list path :=
  map fst (filter (fun e => ends_with ext (file_name (fst e))) fs0).

(** [filepath.is_file()]: the path resolves to a regular file. *)
Definition is_file (p : path) (fs0 : fsys) : bool :=
  match lookup p fs0 with Some (RegFile _) => true | _ => false end.

(** The inner loop of [main] over the paths of one extension. *)
Fixpoint process_paths (ps : list path) (updated_count : nat) : M nat :=
  match ps with
  | [] => ret updated_count
  | p :: ps' =>
      fs0 <- get_fs ;;
      if should_process_file p && is_file p fs0 then
        b <- update_file p ;;
        if b then
          emit (PrintUpdated p) ;; process_paths ps' (S updated_count)
        else process_paths ps' updated_count
      else process_paths ps' updated_count
  end.

Fixpoint process_exts (exts : list string) (updated_count : nat) : M nat :=
  match exts with
  | [] => ret updated_count
  | ext :: exts' =>
      fs0 <- get_fs ;;
      n <- process_paths (rglob ext fs0) updated_count ;;
      process_exts exts' n
  end.

(** [main()] *)
Definition main : M unit :=
  n <- process_exts extensions 0 ;;
  emit (PrintTotal n).

(** One run of the script on a tree and the files its entries name. *)
Definition run (fs0 : fsys) (s0 : store) : (unit + exn) * St := main (mkSt fs0 s0 []).

Definition final_fs (fs0 : fsys) (s0 : store) : fsys := fs (snd (run fs0 s0)).

Definition final_inodes (fs0 : fsys) (s0 : store) : store := inodes (snd (run fs0 s0)).

(** ** Observations on a run *)

(** Files [update_file] never changes: it cannot read them, or their text
    lacks the signature or has no header block, or it may not write them. *)
Definition kept_file (f : file) : Prop :=
  readable f = false \/ payload f = Undecodable \/ writable f = false \/
  exists raw, payload f = Text raw /\
    (contains SIGNATURE (universal_newlines raw) = false \/
     search (universal_newlines raw) MIT_LICENSE_PATTERN = None).

(** The file [f1] is the rewritten form of [f0]: [f1] holds the new text
    computed from the text of [f0], which held the signature and differs
    from it. *)
Definition rewritten (f0 f1 : option file) : Prop :=
  exists f raw f', f0 = Some f /\ payload f = Text raw /\
    contains SIGNATURE (universal_newlines raw) = true /\
    substitute (universal_newlines raw) <> universal_newlines raw /\
    f1 = Some f' /\ payload f' = Text (substitute (universal_newlines raw)).

Definition is_read (q : path) (ev : event) : bool :=
  match ev with OpenRead r => path_eqb r q | _ => false end.
Definition is_write (q : path) (ev : event) : bool :=
  match ev with OpenWrite r => path_eqb r q | _ => false end.
Definition is_updated (ev : event) : bool :=
  match ev with PrintUpdated _ => true | _ => false end.
Definition is_total (ev : event) : bool :=
  match ev with PrintTotal _ => true | _ => false end.

Definition count_ev (P : event -> bool) (evs : list event) : nat := List.length (filter P evs).

(** From index [b], no newline of [t] is reached through whitespace only. *)
Definition no_break_ahead (t : text) (b : nat) : Prop :=
  forall k, b <= k ->
  (forall l, b <= l < k -> exists c, nth_error t l = Some c /\ is_space c = true) ->
  nth_error t k <> Some nl.

(** A header as the script expects it. *)
Definition mit_header : text := lit (join_lines [
  "/**";
  " * Copyright (c) 2023 Philip L. Giacalone";
  " *";
  " * Permission is hereby granted, free of charge, to any person";
  " */";
  ""])%string.

Example search_mit : search mit_header MIT_LICENSE_PATTERN = Some (0, List.length mit_header).
Proof. vm_compute. reflexivity. Qed.

Example search_repl : search REPLACEMENT MIT_LICENSE_PATTERN = None.
Proof. vm_compute. reflexivity. Qed.

Definition sample_file (cs : text) : file := mkFile (Text cs) true true None.

Example run_sample :
  final_inodes [([ "src"; "a.ts" ]%string, RegFile 1)]
               [(1, sample_file (mit_header ++ lit "export const x = 1;"))]
  = [(1, sample_file (REPLACEMENT ++ lit "export const x = 1;"))].
Proof. vm_compute. reflexivity. Qed.

Lemma repl_no_match rest k : m (REPLACEMENT ++ rest) MIT_LICENSE_PATTERN 0 k = None.
Proof. vm_compute. reflexivity. Qed.

(** ** The matcher *)

Lemma rep_loop_ext g b1 b2 k1 k2 (a : nat) :
  (forall i c1 c2, (forall j, c1 (a + j) = c2 j) -> b1 (a + i) c1 = b2 i c2) ->
  (forall j, k1 (a + j) = k2 j) ->
  forall n i, rep_loop g b1 k1 n (a + i) = rep_loop g b2 k2 n i.
Proof.
  intros Hb Hk n. induction n as [|n IH]; intros i; simpl; [apply Hk|].
  assert (Hc : forall j, (if a + i <? a + j then rep_loop g b1 k1 n (a + j) else None)
                      = (if i <? j then rep_loop g b2 k2 n j else None)).
  { intros j. rewrite IH.
    destruct (i <? j) eqn:E1, (a + i <? a + j) eqn:E2; auto;
      apply Nat.ltb_lt in E1 || apply Nat.ltb_ge in E1;
      apply Nat.ltb_lt in E2 || apply Nat.ltb_ge in E2; lia. }
  destruct g; rewrite (Hb i _ _ Hc), Hk; reflexivity.
Qed.

(** Matching at index [a + i] of [t] only looks at [skipn a t]. *)
Lemma m_skipn r : forall t a i k k',
  (forall j, k (a + j) = k' j) ->
  m t r (a + i) k = m (skipn a t) r i k'.
Proof.
  induction r as [| c | p | r1 IH1 r2 IH2 | g r IH]; intros t a i k k' Hk; cbn [m].
  - apply Hk.
  - rewrite nth_error_skipn. destruct (nth_error t (a + i)); auto.
    rewrite <- Nat.add_succ_r. destruct (Ascii.eqb c a0); auto.
  - rewrite nth_error_skipn. destruct (nth_error t (a + i)); auto.
    rewrite <- Nat.add_succ_r. destruct (p a0); auto.
  - apply IH1. intros j. apply IH2. exact Hk.
  - rewrite length_skipn.
    replace (List.length t - (a + i)) with (List.length t - a - i) by lia.
    apply rep_loop_ext; auto.
Qed.

(** The pattern starts with a literal: a match needs a character there. *)
Lemma pattern_match_in_range t i k :
  m t MIT_LICENSE_PATTERN i k <> None -> i < List.length t.
Proof.
  simpl. destruct (nth_error t i) eqn:E.
  - intros _. apply nth_error_Some. rewrite E. discriminate.
  - intros H. exfalso. apply H. reflexivity.
Qed.

Lemma search_from_spec t r n : forall i a b,
  search_from t r n i = Some (a, b) ->
  i <= a /\ m t r a (fun j => Some j) = Some b /\
  (forall k, i <= k < a -> m t r k (fun j => Some j) = None).
Proof.
  induction n as [|n IH]; intros i a b H; simpl in H; [discriminate|].
  destruct (m t r i (fun j => Some j)) eqn:E.
  - injection H as <- <-. repeat split; auto. intros; lia.
  - destruct (IH _ _ _ H) as (H1 & H2 & H3). repeat split; auto; [lia|].
    intros k Hk. destruct (Nat.eq_dec k i) as [->|]; auto. apply H3. lia.
Qed.

(** [search] returns the leftmost match, and the match found there. *)
Lemma search_spec t r a b :
  search t r = Some (a, b) ->
  m t r a (fun j => Some j) = Some b /\
  (forall k, k < a -> m t r k (fun j => Some j) = None).
Proof.
  intros H. destruct (search_from_spec _ _ _ _ _ _ H) as (_ & H2 & H3).
  split; auto. intros k Hk. apply H3. lia.
Qed.

Lemma search_from_find t r a b : forall n i,
  i <= a -> a < i + n ->
  (forall k, i <= k < a -> m t r k (fun j => Some j) = None) ->
  m t r a (fun j => Some j) = Some b ->
  search_from t r n i = Some (a, b).
Proof.
  induction n as [|n IH]; intros i H1 H2 H3 H4; [lia|]. simpl.
  destruct (Nat.eq_dec i a) as [<-|Hne]; [rewrite H4; reflexivity|].
  rewrite H3 by lia. apply IH; auto; try lia.
  intros k Hk. apply H3. lia.
Qed.

(** A match of the pattern is never the replacement text itself, so the
    substitution always changes the text it matched in. *)
Lemma substitute_changes c a b :
  search c MIT_LICENSE_PATTERN = Some (a, b) ->
  firstn a c ++ REPLACEMENT ++ skipn b c <> c.
Proof.
  intros Hs Heq. destruct (search_spec _ _ _ _ Hs) as [Hm _].
  assert (Ha : a < List.length c).
  { apply (pattern_match_in_range c a (fun j => Some j)). rewrite Hm. discriminate. }
  assert (Hsk : skipn a c = REPLACEMENT ++ skipn b c).
  { apply (app_inv_head (firstn a c)). rewrite firstn_skipn. symmetry. exact Heq. }
  replace a with (a + 0) in Hm by lia.
  rewrite (m_skipn _ c a 0 _ (fun j => Some (a + j))) in Hm by reflexivity.
  rewrite Hsk, repl_no_match in Hm. discriminate.
Qed.

(** ** update_file on a file it can read *)

Lemma text_eqb_true a b : text_eqb a b = true <-> a = b.
Proof. unfold text_eqb. destruct (list_eq_dec ascii_dec a b); split; congruence. Qed.

Lemma text_eqb_false a b : text_eqb a b = false <-> a <> b.
Proof. unfold text_eqb. destruct (list_eq_dec ascii_dec a b); split; congruence. Qed.

Definition handler (p : path) (e : exn) : M bool := emit (PrintError p e) ;; ret false.

Lemma update_file_read_ok st p i f raw :
  lookup p (fs st) = Some (RegFile i) -> get_file i (inodes st) = Some f ->
  readable f = true -> payload f = Text raw ->
  update_file p st =
    (let c := universal_newlines raw in
     let st1 := mkSt (fs st) (inodes st) (log st ++ [OpenRead p]) in
     if contains SIGNATURE c && negb (text_eqb (substitute c) c)
     then try_except (write_text p (substitute c) ;; ret true) (handler p) st1
     else (inl false, st1)).
Proof.
  intros Hl Hg Hr Hp.
  unfold update_file, update_file_body, try_except, read_text, handler, bind, emit, get_fs,
    get_inode, ret.
  simpl. rewrite Hl. simpl. rewrite Hg, Hr, Hp.
  destruct (contains SIGNATURE (universal_newlines raw)); simpl; [|reflexivity].
  destruct (text_eqb (substitute (universal_newlines raw)) (universal_newlines raw));
    reflexivity.
Qed.

(** The write goes through when the device accepts the whole text. *)
Definition fits (f : file) (s : text) : Prop :=
  match quota f with None => True | Some q => List.length s <= q end.

Lemma write_text_ok st p i f s :
  lookup p (fs st) = Some (RegFile i) -> get_file i (inodes st) = Some f ->
  writable f = true -> fits f s ->
  exists f', payload f' = Text s /\ readable f' = readable f /\
    write_text p s st
    = (inl tt, mkSt (fs st) (set_file i f' (inodes st)) (log st ++ [OpenWrite p])).
Proof.
  intros Hl Hg Hw Hq. unfold write_text, bind, emit, get_fs, get_inode, put_file. simpl.
  rewrite Hl. simpl. rewrite Hg, Hw. unfold fits in Hq. destruct (quota f) as [q|].
  - destruct (q <? List.length s) eqn:E; [apply Nat.ltb_lt in E; lia|].
    eexists; split; [|split; [|reflexivity]]; reflexivity.
  - eexists; split; [|split; [|reflexivity]]; reflexivity.
Qed.

Lemma substitute_search c a b :
  search c MIT_LICENSE_PATTERN = Some (a, b) ->
  substitute c = firstn a c ++ REPLACEMENT ++ skipn b c.
Proof. intros H. unfold substitute, sub1. rewrite H. reflexivity. Qed.

Lemma substitute_no_match c :
  search c MIT_LICENSE_PATTERN = None -> substitute c = c.
Proof. intros H. unfold substitute, sub1. rewrite H. reflexivity. Qed.

(** Writing a file that [update_file] just read, when the write succeeds. *)
Lemma update_file_rewrites st p i f raw a b :
  lookup p (fs st) = Some (RegFile i) -> get_file i (inodes st) = Some f ->
  readable f = true -> payload f = Text raw ->
  writable f = true -> fits f (substitute (universal_newlines raw)) ->
  contains SIGNATURE (universal_newlines raw) = true ->
  search (universal_newlines raw) MIT_LICENSE_PATTERN = Some (a, b) ->
  exists f', payload f' = Text (firstn a (universal_newlines raw) ++ REPLACEMENT
                                 ++ skipn b (universal_newlines raw)) /\
    readable f' = readable f /\
    update_file p st =
      (inl true, mkSt (fs st) (set_file i f' (inodes st)) (log st ++ [OpenRead p; OpenWrite p])).
Proof.
  intros Hl Hg Hr Hp Hw Hq Hsig Hs.
  rewrite (update_file_read_ok st p i f raw Hl Hg Hr Hp). cbv zeta.
  set (c := universal_newlines raw) in *.
  assert (Hne : text_eqb (substitute c) c = false).
  { apply text_eqb_false. rewrite (substitute_search _ _ _ Hs). apply substitute_changes. exact Hs. }
  rewrite Hsig, Hne. simpl.
  destruct (write_text_ok (mkSt (fs st) (inodes st) (log st ++ [OpenRead p])) p i f (substitute c)
              Hl Hg Hw Hq)
    as (f' & Hf' & Hrd & Hwr).
  rewrite (substitute_search _ _ _ Hs) in Hf', Hwr.
  exists f'. split; [exact Hf'|]. split; [exact Hrd|].
  unfold try_except, bind. rewrite (substitute_search _ _ _ Hs), Hwr. simpl.
  rewrite <- app_assoc. reflexivity.
Qed.

(** ** Claims *)

(** C1: for a file whose text contains the signature and in which the
    header pattern matches, [update_file] replaces exactly the first match
    (the leftmost match, as sre finds it) with [PROPRIETARY_HEADER + '\n\n'],
    keeps everything else, writes the file once and returns [True]. *)
Theorem update_file_replaces_first_match st p i f raw a b :
  lookup p (fs st) = Some (RegFile i) -> get_file i (inodes st) = Some f ->
  readable f = true -> payload f = Text raw ->
  writable f = true -> fits f (substitute (universal_newlines raw)) ->
  contains SIGNATURE (universal_newlines raw) = true ->
  search (universal_newlines raw) MIT_LICENSE_PATTERN = Some (a, b) ->
  m (universal_newlines raw) MIT_LICENSE_PATTERN a (fun j => Some j) = Some b /\
  (forall k, k < a -> m (universal_newlines raw) MIT_LICENSE_PATTERN k (fun j => Some j) = None) /\
  exists f', payload f' = Text (firstn a (universal_newlines raw) ++ REPLACEMENT
                                 ++ skipn b (universal_newlines raw)) /\
    update_file p st =
      (inl true, mkSt (fs st) (set_file i f' (inodes st)) (log st ++ [OpenRead p; OpenWrite p])).
Proof.
  intros Hl Hg Hr Hp Hw Hq Hsig Hs.
  destruct (search_spec _ _ _ _ Hs) as [H1 H2].
  split; [exact H1|]. split; [exact H2|].
  destruct (update_file_rewrites st p i f raw a b Hl Hg Hr Hp Hw Hq Hsig Hs) as (f' & Hf' & _ & Hu).
  exists f'. auto.
Qed.

Definition src_a : path := [ "src"; "a.ts" ]%string.
Definition body_text : text := lit "export const x = 1;".
Definition rw_file (cs : text) : file := mkFile (Text cs) true true None.

(** A one-file tree: [src/a.ts] is inode 1, holding [cs]. *)
Definition one_file (cs : text) : St := mkSt [(src_a, RegFile 1)] [(1, rw_file cs)] [].

Lemma update_file_replaces_first_match_witness :
  exists f', payload f' = Text (firstn 0 (universal_newlines (mit_header ++ body_text)) ++ REPLACEMENT
                                 ++ skipn (List.length mit_header) (universal_newlines (mit_header ++ body_text))) /\
    update_file src_a (one_file (mit_header ++ body_text)) =
      (inl true, mkSt [(src_a, RegFile 1)] (set_file 1 f' [(1, rw_file (mit_header ++ body_text))])
                   ([] ++ [OpenRead src_a; OpenWrite src_a])).
Proof.
  apply (update_file_replaces_first_match
           (one_file (mit_header ++ body_text)) src_a 1
           (rw_file (mit_header ++ body_text)) (mit_header ++ body_text) 0 (List.length mit_header));
    try (vm_compute; reflexivity); exact I.
Defined.

(** C4: a file whose text does not contain the signature is only read:
    [update_file] returns [False] and the tree and its files are
    unchanged. *)
Theorem update_file_no_signature st p i f raw :
  lookup p (fs st) = Some (RegFile i) -> get_file i (inodes st) = Some f ->
  readable f = true -> payload f = Text raw ->
  contains SIGNATURE (universal_newlines raw) = false ->
  update_file p st = (inl false, mkSt (fs st) (inodes st) (log st ++ [OpenRead p])).
Proof.
  intros Hl Hg Hr Hp Hsig.
  rewrite (update_file_read_ok st p i f raw Hl Hg Hr Hp). cbv zeta.
  rewrite Hsig. reflexivity.
Qed.

Lemma update_file_no_signature_witness :
  update_file src_a (one_file body_text) =
    (inl false, mkSt [(src_a, RegFile 1)] [(1, rw_file body_text)] ([] ++ [OpenRead src_a])).
Proof.
  apply (update_file_no_signature (one_file body_text) src_a 1 (rw_file body_text) body_text);
    vm_compute; reflexivity.
Defined.

(** Every outcome of [write_text] starts with opening the path for
    writing. *)
Lemma write_text_log p s st :
  log (snd (write_text p s st)) = log st ++ [OpenWrite p].
Proof.
  unfold write_text, bind, emit, get_fs, get_inode, put_file, create, raise, ret. simpl.
  destruct (lookup p (fs st)) as [[i| |cs| |]|]; simpl; auto.
  destruct (get_file i (inodes st)) as [f|]; simpl; auto.
  destruct (writable f); simpl; auto.
  destruct (quota f) as [q|]; simpl; auto.
  destruct (q <? List.length s); simpl; auto.
Qed.

Lemma try_write_log p s st :
  exists evs, log (snd (try_except (write_text p s ;; ret true) (handler p) st))
              = log st ++ OpenWrite p :: evs.
Proof.
  unfold try_except, bind, handler, emit, ret.
  pose proof (write_text_log p s st) as H.
  destruct (write_text p s st) as [[u|e] st'] eqn:E; simpl in *.
  - exists []. rewrite H. reflexivity.
  - exists [PrintError p e]. rewrite H, <- app_assoc. reflexivity.
Qed.

(** C5: [update_file] opens a readable file for writing exactly when the
    text contains the signature and the substitution changed it; when it
    does not write, nothing changes and the result is [False]; in
    particular when the signature is present but the pattern does not
    match. *)
Theorem update_file_writes_iff_changed st p i f raw :
  lookup p (fs st) = Some (RegFile i) -> get_file i (inodes st) = Some f ->
  readable f = true -> payload f = Text raw ->
  (exists evs,
     log (snd (update_file p st)) = log st ++ OpenRead p :: evs /\
     (In (OpenWrite p) evs <->
        contains SIGNATURE (universal_newlines raw) = true /\
        substitute (universal_newlines raw) <> universal_newlines raw) /\
     (~ In (OpenWrite p) evs ->
      update_file p st = (inl false, mkSt (fs st) (inodes st) (log st ++ [OpenRead p])))) /\
  (contains SIGNATURE (universal_newlines raw) = true ->
   search (universal_newlines raw) MIT_LICENSE_PATTERN = None ->
   update_file p st = (inl false, mkSt (fs st) (inodes st) (log st ++ [OpenRead p]))).
Proof.
  intros Hl Hg Hr Hp.
  rewrite (update_file_read_ok st p i f raw Hl Hg Hr Hp). cbv zeta.
  set (c := universal_newlines raw).
  split.
  - destruct (contains SIGNATURE c && negb (text_eqb (substitute c) c)) eqn:E.
    + apply andb_true_iff in E as [E1 E2]. apply negb_true_iff, text_eqb_false in E2.
      destruct (try_write_log p (substitute c) (mkSt (fs st) (inodes st) (log st ++ [OpenRead p])))
        as [evs Hevs].
      exists (OpenWrite p :: evs). simpl in Hevs. rewrite Hevs, <- app_assoc.
      split; [reflexivity|]. split.
      * split; [intros _; auto | intros _; left; reflexivity].
      * intros H. exfalso. apply H. left. reflexivity.
    + exists []. simpl. split; [reflexivity|]. split.
      * split; [intros []|]. intros [E1 E2].
        rewrite E1 in E. simpl in E. apply negb_false_iff, text_eqb_true in E. contradiction.
      * reflexivity.
  - intros Hsig Hs. rewrite (substitute_no_match c Hs).
    assert (Hself : text_eqb c c = true) by (apply text_eqb_true; reflexivity).
    rewrite Hsig, Hself. reflexivity.
Qed.

Definition mit_shaped_no_header : text :=
  lit "const s = 'Permission is hereby granted';".

Lemma update_file_writes_iff_changed_witness :
  exists evs,
    log (snd (update_file src_a (one_file mit_shaped_no_header))) =
      [] ++ OpenRead src_a :: evs /\
    (In (OpenWrite src_a) evs <->
       contains SIGNATURE (universal_newlines mit_shaped_no_header) = true /\
       substitute (universal_newlines mit_shaped_no_header) <> universal_newlines mit_shaped_no_header) /\
    (~ In (OpenWrite src_a) evs ->
       update_file src_a (one_file mit_shaped_no_header) =
         (inl false, mkSt [(src_a, RegFile 1)] [(1, rw_file mit_shaped_no_header)]
                          ([] ++ [OpenRead src_a]))).
Proof.
  apply (update_file_writes_iff_changed
           (one_file mit_shaped_no_header) src_a 1
           (rw_file mit_shaped_no_header) mit_shaped_no_header);
    vm_compute; reflexivity.
Defined.

(** ** Line endings *)



(** Without carriage returns, text mode reads the characters as stored. *)
Lemma universal_newlines_id cs : ~ In cr cs -> universal_newlines cs = cs.
Proof.
  induction cs as [|c cs IH]; intros H; simpl; [reflexivity|].
  destruct (Ascii.eqb c cr) eqn:E.
  - apply Ascii.eqb_eq in E. subst. exfalso. apply H. left. reflexivity.
  - rewrite IH; [reflexivity|]. intros Hin. apply H. right. exact Hin.
Qed.

Definition is_suffix (x s : text) : bool := is_prefix (rev x) (rev s).

(** C3 (as stated, refuted): a file with CR LF line endings.  The text
    after the header block is [export const x = 1;] followed by CR LF on
    disk; after the run the file ends with that line followed by LF only. *)
Fixpoint crlf_lines (ls : list string) : text :=
  match ls with
  | [] => []
  | l :: ls' => lit l ++ [cr; nl] ++ crlf_lines ls'
  end.

Definition crlf_header : text := crlf_lines [
  "/**";
  " * Copyright (c) 2023 Philip L. Giacalone";
  " *";
  " * Permission is hereby granted, free of charge, to any person";
  " */"]%string.

Definition crlf_following : text := body_text ++ [cr; nl].

Lemma update_file_following_bytes_counterexample :
  let st0 := one_file (crlf_header ++ crlf_following) in
  search (universal_newlines (crlf_header ++ crlf_following)) MIT_LICENSE_PATTERN <> None /\
  get_file 1 (inodes (snd (update_file src_a st0)))
    = Some (rw_file (REPLACEMENT ++ body_text ++ [nl])) /\
  is_suffix crlf_following (REPLACEMENT ++ body_text ++ [nl]) = false.
Proof. vm_compute. split; [discriminate|]. split; reflexivity. Qed.

Lemma firstn_app_exact {A} (x y : list A) n : List.length x = n -> firstn n (x ++ y) = x.
Proof. intros <-. rewrite firstn_app, Nat.sub_diag, firstn_all. simpl. apply app_nil_r. Qed.

Lemma skipn_app_exact {A} (x y : list A) n : List.length x = n -> skipn n (x ++ y) = y.
Proof. intros <-. rewrite skipn_app, Nat.sub_diag, skipn_all. reflexivity. Qed.

(** C3 (amended): one run replaces only the first matching block; the text
    before it and the text after it, as read in text mode, are kept
    unchanged; the latter is byte-for-byte the original when the file holds
    no carriage return (text mode reads CR LF and CR as LF and writes LF). *)
Theorem update_file_keeps_following_text st p i f raw a b :
  lookup p (fs st) = Some (RegFile i) -> get_file i (inodes st) = Some f ->
  readable f = true -> payload f = Text raw ->
  writable f = true -> fits f (substitute (universal_newlines raw)) ->
  contains SIGNATURE (universal_newlines raw) = true ->
  search (universal_newlines raw) MIT_LICENSE_PATTERN = Some (a, b) ->
  exists f' new,
    update_file p st =
      (inl true, mkSt (fs st) (set_file i f' (inodes st)) (log st ++ [OpenRead p; OpenWrite p])) /\
    payload f' = Text new /\
    firstn a new = firstn a (universal_newlines raw) /\
    skipn (a + List.length REPLACEMENT) new = skipn b (universal_newlines raw) /\
    (~ In cr raw -> skipn (a + List.length REPLACEMENT) new = skipn b raw).
Proof.
  intros Hl Hg Hr Hp Hw Hq Hsig Hs.
  destruct (update_file_rewrites st p i f raw a b Hl Hg Hr Hp Hw Hq Hsig Hs) as (f' & Hf' & _ & Hu).
  set (c := universal_newlines raw) in *.
  destruct (search_spec _ _ _ _ Hs) as [Hm _].
  assert (Ha : a < List.length c).
  { apply (pattern_match_in_range c a (fun j => Some j)). rewrite Hm. discriminate. }
  assert (Hfa : List.length (firstn a c) = a) by (rewrite length_firstn; lia).
  exists f', (firstn a c ++ REPLACEMENT ++ skipn b c).
  split; [exact Hu|]. split; [exact Hf'|]. split; [|split].
  - apply firstn_app_exact. exact Hfa.
  - rewrite app_assoc. apply skipn_app_exact. rewrite length_app. lia.
  - intros Hcr. rewrite app_assoc, skipn_app_exact by (rewrite length_app; lia).
    unfold c. rewrite (universal_newlines_id raw Hcr). reflexivity.
Qed.

Lemma update_file_keeps_following_text_witness :
  exists f' new,
    update_file src_a (one_file (mit_header ++ body_text)) =
      (inl true, mkSt [(src_a, RegFile 1)] (set_file 1 f' [(1, rw_file (mit_header ++ body_text))])
                   ([] ++ [OpenRead src_a; OpenWrite src_a])) /\
    payload f' = Text new /\
    firstn 0 new = firstn 0 (universal_newlines (mit_header ++ body_text)) /\
    skipn (0 + List.length REPLACEMENT) new
      = skipn (List.length mit_header) (universal_newlines (mit_header ++ body_text)) /\
    (~ In cr (mit_header ++ body_text) ->
     skipn (0 + List.length REPLACEMENT) new = skipn (List.length mit_header) (mit_header ++ body_text)).
Proof.
  apply (update_file_keeps_following_text
           (one_file (mit_header ++ body_text)) src_a 1
           (rw_file (mit_header ++ body_text)) (mit_header ++ body_text) 0 (List.length mit_header));
    try (vm_compute; reflexivity); exact I.
Defined.

(** ** A failing write *)

(** C9 (as stated, refuted): the device is full.  [open(filepath, 'w')]
    succeeds and truncates the file, [write] then fails: the error is
    reported, [False] is returned and the file is left empty. *)
Definition full_disk_file : file := mkFile (Text (mit_header ++ body_text)) true true (Some 0).

Definition full_disk : St := mkSt [(src_a, RegFile 1)] [(1, full_disk_file)] [].

Lemma update_file_failed_write_counterexample :
  update_file src_a full_disk =
    (inl false, mkSt [(src_a, RegFile 1)] [(1, mkFile (Text []) true true (Some 0))]
                     [OpenRead src_a; OpenWrite src_a; PrintError src_a NoSpaceError]) /\
  get_file 1 (inodes (snd (update_file src_a full_disk))) <> Some full_disk_file.
Proof. vm_compute. split; [reflexivity | discriminate]. Qed.

(** C9 (amended): when the read succeeded and the write fails, the file is
    unchanged if it could not be opened for writing; if it was opened (and
    so truncated) and [write] then fails, it holds only the part of the new
    text the device took. *)
Theorem update_file_failed_write st p i f raw a b :
  lookup p (fs st) = Some (RegFile i) -> get_file i (inodes st) = Some f ->
  readable f = true -> payload f = Text raw ->
  contains SIGNATURE (universal_newlines raw) = true ->
  search (universal_newlines raw) MIT_LICENSE_PATTERN = Some (a, b) ->
  (writable f = false ->
   update_file p st =
     (inl false, mkSt (fs st) (inodes st)
                      (log st ++ [OpenRead p; OpenWrite p; PrintError p PermissionError]))) /\
  (forall q, writable f = true -> quota f = Some q ->
   q < List.length (substitute (universal_newlines raw)) ->
   update_file p st =
     (inl false,
      mkSt (fs st)
           (set_file i (mkFile (Text (firstn q (substitute (universal_newlines raw))))
                               (readable f) true (Some 0)) (inodes st))
           (log st ++ [OpenRead p; OpenWrite p; PrintError p NoSpaceError]))).
Proof.
  intros Hl Hg Hr Hp Hsig Hs.
  rewrite (update_file_read_ok st p i f raw Hl Hg Hr Hp). cbv zeta.
  set (c := universal_newlines raw) in *.
  assert (Hne : text_eqb (substitute c) c = false).
  { apply text_eqb_false. rewrite (substitute_search _ _ _ Hs). apply substitute_changes. exact Hs. }
  rewrite Hsig, Hne. simpl.
  unfold try_except, handler, write_text, bind, emit, get_fs, get_inode, put_file, raise, ret.
  simpl. rewrite Hl. simpl. rewrite Hg. split.
  - intros Hw. rewrite Hw. simpl. rewrite <- !app_assoc. reflexivity.
  - intros q Hw Hq Hlt. rewrite Hw, Hq. apply Nat.ltb_lt in Hlt. rewrite Hlt. simpl.
    rewrite <- !app_assoc. reflexivity.
Qed.

Lemma update_file_failed_write_witness :
  (writable full_disk_file = false ->
   update_file src_a full_disk =
     (inl false, mkSt [(src_a, RegFile 1)] [(1, full_disk_file)]
                      ([] ++ [OpenRead src_a; OpenWrite src_a; PrintError src_a PermissionError]))) /\
  (forall q, writable full_disk_file = true -> quota full_disk_file = Some q ->
   q < List.length (substitute (universal_newlines (mit_header ++ body_text))) ->
   update_file src_a full_disk =
     (inl false,
      mkSt [(src_a, RegFile 1)]
           (set_file 1 (mkFile (Text (firstn q (substitute (universal_newlines (mit_header ++ body_text)))))
                               (readable full_disk_file) true (Some 0))
                     [(1, full_disk_file)])
           ([] ++ [OpenRead src_a; OpenWrite src_a; PrintError src_a NoSpaceError]))).
Proof.
  apply (update_file_failed_write full_disk src_a 1
           full_disk_file (mit_header ++ body_text) 0 (List.length mit_header));
    vm_compute; reflexivity.
Defined.

(** ** Unanchored search *)

Lemma rep_loop_map gr b1 b2 k1 k2 (g : nat -> nat) :
  (forall i c1 c2, (forall j, c1 j = option_map g (c2 j)) -> b1 i c1 = option_map g (b2 i c2)) ->
  (forall j, k1 j = option_map g (k2 j)) ->
  forall n i, rep_loop gr b1 k1 n i = option_map g (rep_loop gr b2 k2 n i).
Proof.
  intros Hb Hk n. induction n as [|n IH]; intros i; simpl; [apply Hk|].
  assert (Hc : forall j, (if i <? j then rep_loop gr b1 k1 n j else None)
                      = option_map g (if i <? j then rep_loop gr b2 k2 n j else None)).
  { intros j. destruct (i <? j); [apply IH | reflexivity]. }
  destruct gr.
  - rewrite (Hb i _ _ Hc). destruct (b2 i _); simpl; [reflexivity | apply Hk].
  - rewrite Hk. destruct (k2 i); simpl; [reflexivity|]. apply Hb. exact Hc.
Qed.

(** The matcher passes on whatever its continuation returns. *)
Lemma m_map r : forall t i k1 k2 (g : nat -> nat),
  (forall j, k1 j = option_map g (k2 j)) ->
  m t r i k1 = option_map g (m t r i k2).
Proof.
  induction r as [| c | p | r1 IH1 r2 IH2 | gr r IH]; intros t i k1 k2 g Hk; cbn [m].
  - apply Hk.
  - destruct (nth_error t i); [|reflexivity]. destruct (Ascii.eqb c a); [apply Hk | reflexivity].
  - destruct (nth_error t i); [|reflexivity]. destruct (p a); [apply Hk | reflexivity].
  - apply IH1. intros j. apply IH2. exact Hk.
  - apply rep_loop_map; auto.
Qed.

Lemma search_after_prefix pre x j :
  (forall k, k < List.length pre -> m (pre ++ x) MIT_LICENSE_PATTERN k (fun j => Some j) = None) ->
  m x MIT_LICENSE_PATTERN 0 (fun j => Some j) = Some j ->
  search (pre ++ x) MIT_LICENSE_PATTERN = Some (List.length pre, List.length pre + j).
Proof.
  intros Hpre Hx.
  assert (Hm : m (pre ++ x) MIT_LICENSE_PATTERN (List.length pre) (fun j => Some j)
               = Some (List.length pre + j)).
  { replace (List.length pre) with (List.length pre + 0) at 1 by lia.
    rewrite (m_skipn _ (pre ++ x) (List.length pre) 0 _ (fun j => Some (List.length pre + j)))
      by reflexivity.
    rewrite skipn_app_exact by reflexivity.
    rewrite (m_map _ x 0 _ (fun j => Some j) (fun j => List.length pre + j)) by reflexivity.
    rewrite Hx. reflexivity. }
  unfold search. apply search_from_find; auto; [lia | rewrite length_app; lia |].
  intros k Hk. apply Hpre. lia.
Qed.

(** C10: the pattern is not anchored: when no match begins inside some
    leading text [pre] and a header block starts right after it, that block
    is the one replaced, whatever [pre] holds. *)
Theorem update_file_unanchored st p i f raw pre x j :
  lookup p (fs st) = Some (RegFile i) -> get_file i (inodes st) = Some f ->
  readable f = true -> payload f = Text raw ->
  writable f = true ->
  universal_newlines raw = pre ++ x ->
  fits f (pre ++ REPLACEMENT ++ skipn j x) ->
  contains SIGNATURE (pre ++ x) = true ->
  (forall k, k < List.length pre -> m (pre ++ x) MIT_LICENSE_PATTERN k (fun j => Some j) = None) ->
  m x MIT_LICENSE_PATTERN 0 (fun j => Some j) = Some j ->
  exists f', payload f' = Text (pre ++ REPLACEMENT ++ skipn j x) /\
    update_file p st =
      (inl true, mkSt (fs st) (set_file i f' (inodes st)) (log st ++ [OpenRead p; OpenWrite p])).
Proof.
  intros Hl Hg Hr Hp Hw Hraw Hq Hsig Hpre Hx.
  pose proof (search_after_prefix pre x j Hpre Hx) as Hs.
  assert (Hsub : firstn (List.length pre) (pre ++ x) ++ REPLACEMENT
                   ++ skipn (List.length pre + j) (pre ++ x) = pre ++ REPLACEMENT ++ skipn j x).
  { rewrite firstn_app_exact by reflexivity.
    rewrite (Nat.add_comm (List.length pre) j), <- skipn_skipn, skipn_app_exact by reflexivity.
    reflexivity. }
  rewrite <- Hraw in Hs, Hsig.
  assert (Hq' : fits f (substitute (universal_newlines raw))).
  { rewrite (substitute_search _ _ _ Hs), Hraw, Hsub. exact Hq. }
  destruct (update_file_rewrites st p i f raw _ _ Hl Hg Hr Hp Hw Hq' Hsig Hs) as (f' & Hf' & _ & Hu).
  rewrite Hraw, Hsub in Hf'. eauto.
Qed.

Definition leading_code : text := lit "const a = 1;" ++ [nl].

Lemma update_file_unanchored_witness :
  exists f', payload f' = Text (leading_code ++ REPLACEMENT ++ skipn (List.length mit_header) (mit_header ++ body_text)) /\
    update_file src_a (one_file (leading_code ++ mit_header ++ body_text)) =
      (inl true, mkSt [(src_a, RegFile 1)]
                      (set_file 1 f' [(1, rw_file (leading_code ++ mit_header ++ body_text))])
                      ([] ++ [OpenRead src_a; OpenWrite src_a])).
Proof.
  apply (update_file_unanchored
           (one_file (leading_code ++ mit_header ++ body_text)) src_a 1
           (rw_file (leading_code ++ mit_header ++ body_text)) (leading_code ++ mit_header ++ body_text)
           leading_code (mit_header ++ body_text) (List.length mit_header)).
  - reflexivity.
  - reflexivity.
  - reflexivity.
  - reflexivity.
  - reflexivity.
  - vm_compute. reflexivity.
  - exact I.
  - vm_compute. reflexivity.
  - intros k Hk. do 13 (destruct k as [|k]; [vm_compute; reflexivity|]).
    vm_compute in Hk. lia.
  - vm_compute. reflexivity.
Defined.

(** ** Running twice *)



(** ** The traversal *)

Lemma path_eqb_true p q : path_eqb p q = true <-> p = q.
Proof. unfold path_eqb. destruct (list_eq_dec string_dec p q); split; congruence. Qed.

Lemma path_eqb_false p q : path_eqb p q = false <-> p <> q.
Proof. unfold path_eqb. destruct (list_eq_dec string_dec p q); split; congruence. Qed.

Lemma path_eqb_refl p : path_eqb p p = true.
Proof. apply path_eqb_true. reflexivity. Qed.

Lemma get_set_file_same i f s : get_file i (set_file i f s) = Some f.
Proof.
  induction s as [|[j f'] s IH]; simpl.
  - rewrite Nat.eqb_refl. reflexivity.
  - destruct (Nat.eqb i j) eqn:E; simpl; rewrite ?E; auto.
Qed.

Lemma get_set_file_other i k f s : k <> i -> get_file k (set_file i f s) = get_file k s.
Proof.
  intros Hne. induction s as [|[j f'] s IH]; simpl.
  - destruct (Nat.eqb k i) eqn:E; [apply Nat.eqb_eq in E; congruence | reflexivity].
  - destruct (Nat.eqb i j) eqn:E1; simpl.
    + apply Nat.eqb_eq in E1. subst j.
      destruct (Nat.eqb k i) eqn:E2; [apply Nat.eqb_eq in E2; congruence | reflexivity].
    + rewrite IH. reflexivity.
Qed.

Ltac unfold_script :=
  unfold update_file, update_file_body, try_except, read_text, write_text,
    bind, emit, get_fs, get_inode, put_file, create, raise, ret.

(** Whatever happens, [update_file] returns a boolean (no exception
    escapes); it opens [p] for reading first, then at most opens it for
    writing and reports one error about it; it returns [True] only after a
    write that raised nothing; it never changes the entries of the tree,
    and changes at most the file [p] names, and only after opening it for
    writing. *)
Lemma update_file_cases p st :
  exists b evs,
    fst (update_file p st) = inl b /\
    fs (snd (update_file p st)) = fs st /\
    log (snd (update_file p st)) = log st ++ OpenRead p :: evs /\
    (evs = [] \/ evs = [OpenWrite p] \/ (exists e, evs = [PrintError p e]) \/
     (exists e, evs = [OpenWrite p; PrintError p e])) /\
    (b = true -> evs = [OpenWrite p]) /\
    (inodes (snd (update_file p st)) = inodes st \/
     (In (OpenWrite p) evs /\ exists i f f', lookup p (fs st) = Some (RegFile i) /\
        get_file i (inodes st) = Some f /\
        inodes (snd (update_file p st)) = set_file i f' (inodes st))).
Proof.
  unfold_script. simpl.
  destruct (lookup p (fs st)) as [[i| |cs| |]|] eqn:Hl; simpl;
  [destruct (get_file i (inodes st)) as [f|] eqn:Hg; simpl | ..];
  repeat (first [ match goal with |- context [if ?b then _ else _] => destruct b end
                | match goal with |- context [match payload ?f with _ => _ end] =>
                    destruct (payload f) end
                | match goal with |- context [match quota ?f with _ => _ end] =>
                    destruct (quota f) end
                | rewrite Hl
                | rewrite Hg ]; simpl);
  do 2 eexists; (split; [reflexivity|]); (split; [reflexivity|]);
  (split; [rewrite <- ?app_assoc; reflexivity|]);
  (split; [solve [ left; reflexivity | right; left; reflexivity
                 | right; right; left; eexists; reflexivity
                 | right; right; right; eexists; reflexivity ]|]);
  (split; [intros H; solve [discriminate H | reflexivity]|]);
  first [ left; reflexivity
        | right; split; [simpl; auto | do 3 eexists; split; [reflexivity | split; [exact Hg | reflexivity]]] ].
Qed.

(** [update_file] returns [True] after writing the rewritten text to the
    file [p] names (or to a character device, which discards it). *)
Lemma update_file_true p st st1 :
  update_file p st = (inl true, st1) ->
  fs st1 = fs st /\ log st1 = log st ++ [OpenRead p; OpenWrite p] /\
  ((exists cs, lookup p (fs st) = Some (CharDevice cs) /\ inodes st1 = inodes st) \/
   exists i f', lookup p (fs st) = Some (RegFile i) /\
     inodes st1 = set_file i f' (inodes st) /\ rewritten (get_file i (inodes st)) (Some f')).
Proof.
  intros H.
  unfold update_file, update_file_body, try_except, read_text, write_text,
    bind, emit, get_fs, get_inode, put_file, create, raise, ret in H.
  simpl in H.
  destruct (lookup p (fs st)) as [[i| |cs| |]|] eqn:Hl; simpl in H; try discriminate.
  - destruct (get_file i (inodes st)) as [f|] eqn:Hg; simpl in H; [|discriminate].
    destruct (readable f) eqn:Hr; simpl in H; [|discriminate].
    destruct (payload f) as [raw|] eqn:Hp; simpl in H; [|discriminate].
    destruct (contains SIGNATURE (universal_newlines raw)) eqn:Hsig; simpl in H; [|discriminate].
    destruct (text_eqb (substitute (universal_newlines raw)) (universal_newlines raw)) eqn:Hne;
      simpl in H; [discriminate|].
    rewrite Hl in H. simpl in H. rewrite Hg in H.
    destruct (writable f); simpl in H; [|discriminate].
    apply text_eqb_false in Hne.
    destruct (quota f) as [q|];
      [destruct (q <? List.length (substitute (universal_newlines raw))); simpl in H; [discriminate|]|];
      injection H as <-; simpl; (split; [reflexivity|]); (split; [rewrite <- app_assoc; reflexivity|]);
      right; do 2 eexists; (split; [reflexivity|]); (split; [reflexivity|]);
      exists f, raw; eexists; repeat split; eauto.
  - destruct (contains SIGNATURE (universal_newlines cs)); simpl in H; [|discriminate].
    destruct (text_eqb (substitute (universal_newlines cs)) (universal_newlines cs));
      simpl in H; [discriminate|].
    rewrite Hl in H. simpl in H. injection H as <-. simpl.
    split; [reflexivity|]. split; [rewrite <- app_assoc; reflexivity|].
    left. exists cs. split; reflexivity.
Qed.

(** A file [update_file] keeps, or a missing one: [update_file] returns
    [False] and changes no file. *)
Lemma update_file_kept p st i :
  lookup p (fs st) = Some (RegFile i) ->
  (forall f, get_file i (inodes st) = Some f -> kept_file f) ->
  fst (update_file p st) = inl false /\ inodes (snd (update_file p st)) = inodes st.
Proof.
  intros Hl Hk.
  destruct (get_file i (inodes st)) as [f|] eqn:Hg.
  2: { unfold_script. simpl. rewrite Hl. simpl. rewrite Hg. split; reflexivity. }
  specialize (Hk f eq_refl).
  destruct (readable f) eqn:Hr.
  2: { unfold_script. simpl. rewrite Hl. simpl. rewrite Hg, Hr. split; reflexivity. }
  destruct (payload f) as [raw|] eqn:Hp.
  2: { unfold_script. simpl. rewrite Hl. simpl. rewrite Hg, Hr, Hp. split; reflexivity. }
  rewrite (update_file_read_ok st p i f raw Hl Hg Hr Hp). cbv zeta.
  destruct Hk as [Hk|[Hk|[Hw|(raw' & Hp' & [Hs|Hs])]]]; try congruence.
  - destruct (contains SIGNATURE (universal_newlines raw) && _); [|split; reflexivity].
    unfold try_except, handler, write_text, bind, emit, get_fs, get_inode, put_file, raise, ret.
    simpl. rewrite Hl. simpl. rewrite Hg, Hw. split; reflexivity.
  - rewrite Hp' in Hp. injection Hp as ->. rewrite Hs. split; reflexivity.
  - rewrite Hp' in Hp. injection Hp as ->.
    rewrite (substitute_no_match _ Hs).
    replace (text_eqb (universal_newlines raw) (universal_newlines raw)) with true
      by (symmetry; apply text_eqb_true; reflexivity).
    rewrite andb_false_r. split; reflexivity.
Qed.

Lemma count_ev_app P a b : count_ev P (a ++ b) = count_ev P a + count_ev P b.
Proof. unfold count_ev. rewrite filter_app, length_app. reflexivity. Qed.

Lemma count_ev_read_zero q evs : ~ In (OpenRead q) evs -> count_ev (is_read q) evs = 0.
Proof.
  induction evs as [|ev evs IH]; intros H; [reflexivity|].
  unfold count_ev in *. simpl.
  destruct (is_read q ev) eqn:E.
  - destruct ev; try discriminate. apply path_eqb_true in E. subst. exfalso. apply H. left. reflexivity.
  - apply IH. intros Hin. apply H. right. exact Hin.
Qed.

Lemma count_ev_write_zero q evs : ~ In (OpenWrite q) evs -> count_ev (is_write q) evs = 0.
Proof.
  induction evs as [|ev evs IH]; intros H; [reflexivity|].
  unfold count_ev in *. simpl.
  destruct (is_write q ev) eqn:E.
  - destruct ev; try discriminate. apply path_eqb_true in E. subst. exfalso. apply H. left. reflexivity.
  - apply IH. intros Hin. apply H. right. exact Hin.
Qed.

(** The events of one [update_file] call on [p] after its [OpenRead p]. *)
Lemma update_tail_facts p q evs1 :
  (evs1 = [] \/ evs1 = [OpenWrite p] \/ (exists e, evs1 = [PrintError p e]) \/
   (exists e, evs1 = [OpenWrite p; PrintError p e])) ->
  count_ev is_updated evs1 = 0 /\ count_ev is_total evs1 = 0 /\
  (forall r, ~ In (PrintUpdated r) evs1) /\ (forall r, ~ In (OpenRead r) evs1) /\
  count_ev (is_read q) evs1 = 0 /\ count_ev (is_write q) evs1 <= 1 /\
  (forall r, In (OpenWrite r) evs1 -> r = p).
Proof.
  intros H.
  assert (Hr : forall r, ~ In (OpenRead r) evs1).
  { intros r. destruct H as [->|[->|[[e ->]|[e ->]]]]; simpl; intuition congruence. }
  split; [destruct H as [->|[->|[[e ->]|[e ->]]]]; reflexivity|].
  split; [destruct H as [->|[->|[[e ->]|[e ->]]]]; reflexivity|].
  split; [intros r; destruct H as [->|[->|[[e ->]|[e ->]]]]; simpl; intuition congruence|].
  split; [exact Hr|]. split; [apply count_ev_read_zero; apply Hr|].
  split; [destruct H as [->|[->|[[e ->]|[e ->]]]]; unfold count_ev; simpl;
          destruct (path_eqb p q); simpl; lia|].
  intros r Hin. destruct H as [->|[->|[[e ->]|[e ->]]]]; simpl in Hin; intuition congruence.
Qed.

Lemma process_paths_cons p ps cnt st :
  process_paths (p :: ps) cnt st =
    if should_process_file p && is_file p (fs st) then
      match update_file p st with
      | (inl true, st1) =>
          process_paths ps (S cnt) (mkSt (fs st1) (inodes st1) (log st1 ++ [PrintUpdated p]))
      | (inl false, st1) => process_paths ps cnt st1
      | (inr e, st1) => (inr e, st1)
      end
    else process_paths ps cnt st.
Proof.
  cbn [process_paths]. unfold bind at 1, get_fs.
  destruct (should_process_file p && is_file p (fs st)); [|reflexivity].
  unfold bind, emit. destruct (update_file p st) as [[[|]|e] st1]; reflexivity.
Qed.

Lemma is_file_inode p fs0 : is_file p fs0 = true -> exists j, lookup p fs0 = Some (RegFile j).
Proof.
  unfold is_file. destruct (lookup p fs0) as [[j| | | |]|]; try discriminate. eauto.
Qed.

(** Everything one pass of the inner loop of [main] does, seen from a
    path [q] and an inode [i]: no exception escapes and the entries stay
    the same; the count grows by the [Updated:] lines printed; a path is
    opened only if it is in the list, passes [should_process_file] and is a
    regular file, and every such path is opened for reading; the file [i]
    changes only through a name of it opened for writing, never when
    [update_file] keeps it, and when [q] is its only name and is reported
    updated, it ends holding the rewritten text. *)
Lemma process_paths_path q i ps : forall cnt st, exists n evs,
  fst (process_paths ps cnt st) = inl n /\
  fs (snd (process_paths ps cnt st)) = fs st /\
  log (snd (process_paths ps cnt st)) = log st ++ evs /\
  n = cnt + count_ev is_updated evs /\
  count_ev is_total evs = 0 /\
  (forall r, In (OpenRead r) evs \/ In (OpenWrite r) evs \/ In (PrintUpdated r) evs ->
     In r ps /\ should_process_file r = true /\ is_file r (fs st) = true) /\
  (forall r, In r ps -> should_process_file r = true -> is_file r (fs st) = true ->
     In (OpenRead r) evs) /\
  (NoDup ps -> count_ev (is_read q) evs <= 1 /\ count_ev (is_write q) evs <= 1) /\
  ((forall r, lookup r (fs st) = Some (RegFile i) -> ~ In (OpenWrite r) evs) ->
     get_file i (inodes (snd (process_paths ps cnt st))) = get_file i (inodes st)) /\
  (forall f, get_file i (inodes st) = Some f -> kept_file f ->
     get_file i (inodes (snd (process_paths ps cnt st))) = get_file i (inodes st)) /\
  (NoDup ps -> lookup q (fs st) = Some (RegFile i) ->
   (forall r, lookup r (fs st) = Some (RegFile i) -> r = q) ->
   In (PrintUpdated q) evs ->
   rewritten (get_file i (inodes st)) (get_file i (inodes (snd (process_paths ps cnt st))))).
Proof.
  induction ps as [|p ps IH]; intros cnt st.
  - exists cnt, []. simpl. rewrite app_nil_r.
    split; [reflexivity|]. split; [reflexivity|]. split; [reflexivity|].
    split; [unfold count_ev; simpl; lia|]. split; [reflexivity|].
    split; [intros r [[]|[[]|[]]]|]. split; [intros r []|].
    split; [intros _; unfold count_ev; simpl; split; lia|].
    split; [intros _; reflexivity|]. split; [intros; reflexivity|]. intros _ _ _ [].
  - rewrite process_paths_cons.
    destruct (should_process_file p && is_file p (fs st)) eqn:Hc.
    2: { destruct (IH cnt st) as (n & evs & H1 & H2 & H3 & H4 & H5 & H6 & H7 & H8 & H9 & H10 & H11).
         exists n, evs. do 5 (split; [assumption|]).
         split; [intros r Hr; destruct (H6 r Hr) as (A & B & C); split; [right; exact A | auto]|].
         split; [intros r [<-|Hin] Hs Hf; [rewrite Hs, Hf in Hc; discriminate | auto]|].
         split; [intros Hnd; inversion Hnd; auto|].
         split; [exact H9|]. split; [exact H10|].
         intros Hnd; inversion Hnd; auto. }
    apply andb_true_iff in Hc as [Hsp Hif].
    destruct (is_file_inode p (fs st) Hif) as [j Hj].
    destruct (update_file_cases p st) as (b & evs1 & Hb & Hfs1 & Hlog1 & Hev1 & Htrue1 & Hino1).
    pose proof (update_file_true p st) as Ht.
    assert (Hoth : forall k, k <> j ->
              get_file k (inodes (snd (update_file p st))) = get_file k (inodes st)).
    { intros k Hk. destruct Hino1 as [->|(_ & j' & f & f' & Hl & _ & ->)]; [reflexivity|].
      rewrite Hj in Hl. injection Hl as <-. apply get_set_file_other. exact Hk. }
    assert (Hnw : ~ In (OpenWrite p) evs1 -> inodes (snd (update_file p st)) = inodes st).
    { intros H. destruct Hino1 as [E|(Hw & _)]; [exact E | contradiction]. }
    pose proof (update_file_kept p st j Hj) as Hkept.
    destruct (update_file p st) as [r st1] eqn:Eu.
    simpl in Hb, Hfs1, Hlog1, Hoth, Hnw, Hkept. subst r.
    destruct (update_tail_facts p q evs1 Hev1) as (T1 & T2 & T3 & T4 & T5 & T6 & T7).
    assert (Hstep : exists cnt' ext,
              (if b then process_paths ps (S cnt) (mkSt (fs st1) (inodes st1) (log st1 ++ [PrintUpdated p]))
               else process_paths ps cnt st1)
              = process_paths ps cnt' (mkSt (fs st) (inodes st1) (log st ++ OpenRead p :: evs1 ++ ext)) /\
              cnt' = cnt + count_ev is_updated ext /\
              ((b = true /\ ext = [PrintUpdated p]) \/ (b = false /\ ext = []))).
    { destruct b.
      - exists (S cnt), [PrintUpdated p]. rewrite Hfs1, Hlog1, <- app_assoc.
        split; [reflexivity|]. split; [unfold count_ev; simpl; lia|]. left; auto.
      - exists cnt, []. rewrite app_nil_r. destruct st1 as [fs1 in1 lg1]. simpl in *. subst.
        split; [reflexivity|]. split; [unfold count_ev; simpl; lia|]. right; auto. }
    destruct Hstep as (cnt' & ext & Hstep & Hcnt & Hext).
    assert (Hx1 : forall r, ~ In (OpenRead r) ext /\ ~ In (OpenWrite r) ext).
    { intros r. destruct Hext as [(_ & ->)|(_ & ->)]; simpl; intuition congruence. }
    assert (Hx2 : forall r, In (PrintUpdated r) ext -> r = p /\ b = true).
    { intros r Hr. destruct Hext as [(Hb' & ->)|(_ & ->)]; simpl in Hr; intuition congruence. }
    assert (Hx3 : count_ev is_total ext = 0)
      by (destruct Hext as [(_ & ->)|(_ & ->)]; reflexivity).
    cbn beta iota. rewrite Hstep.
    destruct (IH cnt' (mkSt (fs st) (inodes st1) (log st ++ OpenRead p :: evs1 ++ ext)))
      as (n & evs2 & H1 & H2 & H3 & H4 & H5 & H6 & H7 & H8 & H9 & H10 & H11).
    simpl in H2, H3, H6, H7, H9, H10, H11.
    (* the events of this step, about paths other than [p] *)
    assert (Hin : forall r, In (OpenRead r) (OpenRead p :: evs1 ++ ext ++ evs2) \/
                          In (OpenWrite r) (OpenRead p :: evs1 ++ ext ++ evs2) \/
                          In (PrintUpdated r) (OpenRead p :: evs1 ++ ext ++ evs2) ->
                  r = p \/ (In (OpenRead r) evs2 \/ In (OpenWrite r) evs2 \/ In (PrintUpdated r) evs2)).
    { intros r Hr.
      destruct Hr as [[E|Hr]|[[E|Hr]|[E|Hr]]]; try (injection E; auto); try discriminate;
        repeat (apply in_app_or in Hr as [Hr|Hr]);
        solve [ right; auto
              | exfalso; eapply T4; exact Hr | exfalso; eapply T3; exact Hr
              | left; apply T7; exact Hr
              | exfalso; eapply (proj1 (Hx1 r)); exact Hr
              | exfalso; eapply (proj2 (Hx1 r)); exact Hr
              | left; apply (Hx2 r Hr) ]. }
    exists n, (OpenRead p :: evs1 ++ ext ++ evs2).
    split; [exact H1|]. split; [exact H2|].
    split; [rewrite H3, <- app_assoc; simpl; rewrite <- app_assoc; reflexivity|].
    split; [rewrite H4, Hcnt; unfold count_ev in *; simpl; rewrite !filter_app, !length_app; lia|].
    split; [unfold count_ev in *; simpl; rewrite !filter_app, !length_app; lia|].
    split.
    { intros r Hr. destruct (Hin r Hr) as [->|Hr'].
      - split; [left; reflexivity|]. auto.
      - destruct (H6 r Hr') as (A & B & C). split; [right; exact A|]. auto. }
    split.
    { intros r [<-|Hr] Hs Hf; [left; reflexivity|]. right.
      apply in_or_app. right. apply in_or_app. right. apply H7; auto. }
    split.
    { intros Hnd. inversion Hnd as [|? ? Hnp Hnd']; subst.
      destruct (H8 Hnd') as (C1 & C2).
      assert (Zx : count_ev (is_read q) ext = 0 /\ count_ev (is_write q) ext = 0)
        by (split; [apply count_ev_read_zero | apply count_ev_write_zero]; apply Hx1).
      destruct (list_eq_dec string_dec p q) as [<-|Hqp].
      - assert (A1 : ~ In (OpenRead p) evs2) by (intros E; apply Hnp; apply (H6 p); auto).
        assert (A2 : ~ In (OpenWrite p) evs2) by (intros E; apply Hnp; apply (H6 p); auto).
        pose proof (count_ev_read_zero _ _ A1) as Z1.
        pose proof (count_ev_write_zero _ _ A2) as Z2.
        unfold count_ev in *; simpl; rewrite path_eqb_refl; simpl; rewrite !filter_app, !length_app.
        split; lia.
      - assert (E : path_eqb p q = false) by (apply path_eqb_false; exact Hqp).
        assert (Z3 : count_ev (is_write q) evs1 = 0).
        { apply count_ev_write_zero. intros Hw. apply Hqp. symmetry. apply T7. exact Hw. }
        unfold count_ev in *; simpl; rewrite E; simpl; rewrite !filter_app, !length_app.
        split; lia. }
    assert (Hstay : (forall r, lookup r (fs st) = Some (RegFile i) -> ~ In (OpenWrite r) evs1) ->
                    get_file i (inodes st1) = get_file i (inodes st)).
    { intros Hnw'. destruct (Nat.eq_dec j i) as [<-|Hji]; [|apply Hoth; congruence].
      rewrite Hnw; [reflexivity|]. apply Hnw'. exact Hj. }
    split.
    { intros Hnw'. rewrite H9.
      - apply Hstay. intros r Hr Hw. apply (Hnw' r Hr). right. apply in_or_app. left. exact Hw.
      - intros r Hr Hw. apply (Hnw' r Hr). right. apply in_or_app. right. apply in_or_app. right. exact Hw. }
    split.
    { intros f Hg Hk.
      assert (Hs1 : get_file i (inodes st1) = get_file i (inodes st)).
      { destruct (Nat.eq_dec j i) as [<-|Hji]; [|apply Hoth; congruence].
        assert (Hkj : forall f', get_file j (inodes st) = Some f' -> kept_file f')
          by (intros f' Hf'; rewrite Hg in Hf'; injection Hf' as <-; exact Hk).
        rewrite (proj2 (Hkept Hkj)). reflexivity. }
      rewrite (H10 f); [exact Hs1 | rewrite Hs1; exact Hg | exact Hk]. }
    intros Hnd Hq Huniq Hu. inversion Hnd as [|? ? Hnp Hnd']; subst.
    destruct (list_eq_dec string_dec p q) as [<-|Hqp].
    + rewrite Hj in Hq. injection Hq as <-.
      assert (Hb' : b = true).
      { apply in_inv in Hu as [Hu|Hu]; [discriminate|].
        repeat (apply in_app_or in Hu as [Hu|Hu]).
        - exfalso. eapply T3. exact Hu.
        - apply (Hx2 p Hu).
        - exfalso. apply Hnp. apply (H6 p). auto. }
      subst b. destruct (Ht st1 eq_refl) as (_ & _ & [(cs & Hcs & _)|(i' & f' & Hl' & Hino & Hrw)]);
        [congruence|].
      rewrite Hj in Hl'. injection Hl' as <-.
      rewrite H9.
      * rewrite Hino, get_set_file_same. exact Hrw.
      * intros r Hr Hw. rewrite (Huniq r Hr) in Hw. apply Hnp. apply (H6 p). auto.
    + assert (Hji : j <> i) by (intros <-; apply Hqp; apply Huniq; exact Hj).
      rewrite <- (Hoth i (fun h => Hji (eq_sym h))).
      apply H11; auto.
      apply in_inv in Hu as [Hu|Hu]; [discriminate|].
      repeat (apply in_app_or in Hu as [Hu|Hu]); try exact Hu.
      * exfalso. eapply T3. exact Hu.
      * exfalso. apply Hqp. symmetry. apply (Hx2 q Hu).
Qed.

Lemma rglob_nodup ext fs0 : NoDup (map fst fs0) -> NoDup (rglob ext fs0).
Proof.
  unfold rglob. induction fs0 as [|[p n] fs0 IH]; intros H; simpl in *; [constructor|].
  inversion H as [|? ? Hnin Hnd]; subst.
  destruct (ends_with ext (file_name p)); simpl; [constructor|]; auto.
  intros Hin. apply Hnin. apply in_map_iff in Hin as ([p' n'] & Hp & Hin). simpl in Hp. subst p'.
  apply filter_In in Hin as [Hin _]. apply in_map_iff. exists (p, n'). auto.
Qed.

Lemma process_exts_cons ext exts cnt st :
  process_exts (ext :: exts) cnt st =
    match process_paths (rglob ext (fs st)) cnt st with
    | (inl n, st1) => process_exts exts n st1
    | (inr e, st1) => (inr e, st1)
    end.
Proof. reflexivity. Qed.

(** Everything the extension loop of [main] does, seen from a path [q] and
    an inode [i]. *)
Lemma process_exts_path q i exts : forall cnt st, exists n evs,
  fst (process_exts exts cnt st) = inl n /\
  fs (snd (process_exts exts cnt st)) = fs st /\
  log (snd (process_exts exts cnt st)) = log st ++ evs /\
  n = cnt + count_ev is_updated evs /\
  count_ev is_total evs = 0 /\
  (forall r, In (OpenRead r) evs \/ In (OpenWrite r) evs \/ In (PrintUpdated r) evs ->
     (exists ext, In ext exts /\ In r (rglob ext (fs st))) /\
     should_process_file r = true /\ is_file r (fs st) = true) /\
  (forall ext r, In ext exts -> In r (rglob ext (fs st)) ->
     should_process_file r = true -> is_file r (fs st) = true -> In (OpenRead r) evs) /\
  (NoDup (map fst (fs st)) -> NoDup exts ->
   (forall e1 e2, In e1 exts -> In e2 exts ->
      In q (rglob e1 (fs st)) -> In q (rglob e2 (fs st)) -> e1 = e2) ->
     count_ev (is_read q) evs <= 1 /\ count_ev (is_write q) evs <= 1) /\
  ((forall r, lookup r (fs st) = Some (RegFile i) -> ~ In (OpenWrite r) evs) ->
     get_file i (inodes (snd (process_exts exts cnt st))) = get_file i (inodes st)) /\
  (forall f, get_file i (inodes st) = Some f -> kept_file f ->
     get_file i (inodes (snd (process_exts exts cnt st))) = get_file i (inodes st)) /\
  (NoDup (map fst (fs st)) -> NoDup exts ->
   (forall e1 e2, In e1 exts -> In e2 exts ->
      In q (rglob e1 (fs st)) -> In q (rglob e2 (fs st)) -> e1 = e2) ->
   lookup q (fs st) = Some (RegFile i) ->
   (forall r, lookup r (fs st) = Some (RegFile i) -> r = q) ->
   In (PrintUpdated q) evs ->
   rewritten (get_file i (inodes st)) (get_file i (inodes (snd (process_exts exts cnt st))))).
Proof.
  induction exts as [|ext exts IH]; intros cnt st.
  - exists cnt, []. simpl. rewrite app_nil_r.
    split; [reflexivity|]. split; [reflexivity|]. split; [reflexivity|].
    split; [unfold count_ev; simpl; lia|]. split; [reflexivity|].
    split; [intros r [[]|[[]|[]]]|]. split; [intros ext r []|].
    split; [intros _ _ _; unfold count_ev; simpl; split; lia|].
    split; [intros _; reflexivity|]. split; [intros; reflexivity|]. intros _ _ _ _ _ [].
  - rewrite process_exts_cons.
    destruct (process_paths_path q i (rglob ext (fs st)) cnt st)
      as (n1 & evs1 & P1 & P2 & P3 & P4 & P5 & P6 & P7 & P8 & P9 & P10 & P11).
    destruct (process_paths (rglob ext (fs st)) cnt st) as [r st1] eqn:E.
    simpl in P1, P2, P3, P9, P10, P11. subst r.
    destruct (IH n1 st1) as (n & evs2 & H1 & H2 & H3 & H4 & H5 & H6 & H7 & H8 & H9 & H10 & H11).
    rewrite P2 in H2, H6, H7, H8, H9, H11.
    assert (Nq2 : (forall e, In e exts -> ~ In q (rglob e (fs st))) ->
                  ~ In (OpenRead q) evs2 /\ ~ In (OpenWrite q) evs2 /\ ~ In (PrintUpdated q) evs2).
    { intros Hn.
      split; [|split]; intros Hin;
        destruct (H6 q (ltac:(auto))) as ((e & He & Hq) & _); exact (Hn e He Hq). }
    assert (Nq1 : ~ In q (rglob ext (fs st)) ->
                  ~ In (OpenRead q) evs1 /\ ~ In (OpenWrite q) evs1 /\ ~ In (PrintUpdated q) evs1).
    { intros Hn. split; [|split]; intros Hin; apply Hn; apply (P6 q); auto. }
    exists n, (evs1 ++ evs2).
    split; [exact H1|]. split; [exact H2|].
    split; [rewrite H3, P3, app_assoc; reflexivity|].
    split; [rewrite count_ev_app; lia|].
    split; [rewrite count_ev_app; lia|].
    split.
    { intros r' Hr.
      assert (Hr' : (In (OpenRead r') evs1 \/ In (OpenWrite r') evs1 \/ In (PrintUpdated r') evs1) \/
                    (In (OpenRead r') evs2 \/ In (OpenWrite r') evs2 \/ In (PrintUpdated r') evs2)).
      { destruct Hr as [Hr|[Hr|Hr]]; apply in_app_or in Hr as [Hr|Hr]; auto. }
      destruct Hr' as [Hr'|Hr'].
      - destruct (P6 r' Hr') as (A & B & C). split; [|auto]. exists ext. split; [left; reflexivity | exact A].
      - destruct (H6 r' Hr') as ((e & He & A) & B & C). split; [|auto].
        exists e. split; [right; exact He | exact A]. }
    split.
    { intros e r' [<-|He] Hr Hs Hf; apply in_or_app; [left; auto | right; eapply H7; eauto]. }
    split.
    { intros Hnd Hndx Hdisj. inversion Hndx as [|? ? Hext Hndx']; subst.
      assert (Hdisj' : forall e1 e2, In e1 exts -> In e2 exts ->
                 In q (rglob e1 (fs st)) -> In q (rglob e2 (fs st)) -> e1 = e2)
        by (intros e1 e2 He1 He2; apply Hdisj; right; assumption).
      destruct (in_dec (list_eq_dec string_dec) q (rglob ext (fs st))) as [Hin|Hnin].
      - destruct (P8 (rglob_nodup ext (fs st) Hnd)) as (C1 & C2).
        destruct Nq2 as (B1 & B2 & _).
        { intros e He Hq. assert (ext = e) by (apply Hdisj; simpl; auto). subst e. contradiction. }
        rewrite !count_ev_app, (count_ev_read_zero _ _ B1), (count_ev_write_zero _ _ B2).
        split; lia.
      - destruct (Nq1 Hnin) as (A1 & A2 & _).
        destruct (H8 Hnd Hndx' Hdisj') as (C1 & C2).
        rewrite !count_ev_app, (count_ev_read_zero _ _ A1), (count_ev_write_zero _ _ A2).
        split; lia. }
    split.
    { intros Hnw. rewrite H9.
      - apply P9. intros r' Hr Hw. apply (Hnw r' Hr). apply in_or_app. left. exact Hw.
      - intros r' Hr Hw. apply (Hnw r' Hr). apply in_or_app. right. exact Hw. }
    split.
    { intros f Hg Hk. rewrite (P10 f Hg Hk) in H10. rewrite (H10 f Hg Hk). reflexivity. }
    intros Hnd Hndx Hdisj Hq Huniq Hu. inversion Hndx as [|? ? Hext Hndx']; subst.
    assert (Hdisj' : forall e1 e2, In e1 exts -> In e2 exts ->
               In q (rglob e1 (fs st)) -> In q (rglob e2 (fs st)) -> e1 = e2)
      by (intros e1 e2 He1 He2; apply Hdisj; right; assumption).
    destruct (in_dec (list_eq_dec string_dec) q (rglob ext (fs st))) as [Hin|Hnin].
    + destruct Nq2 as (_ & B2 & B3).
      { intros e He Hq'. assert (ext = e) by (apply Hdisj; simpl; auto). subst e. contradiction. }
      apply in_app_or in Hu as [Hu|Hu]; [|contradiction].
      rewrite H9.
      * apply P11; auto. apply rglob_nodup. exact Hnd.
      * intros r' Hr Hw. rewrite (Huniq r' Hr) in Hw. contradiction.
    + destruct (Nq1 Hnin) as (_ & A2 & A3).
      apply in_app_or in Hu as [Hu|Hu]; [contradiction|].
      rewrite <- (P9 (fun r' Hr Hw => A2 (eq_ind r' (fun x => In (OpenWrite x) evs1) Hw q (Huniq r' Hr)))).
      apply H11; auto.
Qed.

Lemma is_prefix_split p : forall x, is_prefix p x = true -> exists y, x = p ++ y.
Proof.
  induction p as [|a p IH]; intros x H; [exists x; reflexivity|].
  destruct x as [|b x]; simpl in H; [discriminate|].
  apply andb_true_iff in H as [H1 H2]. apply Ascii.eqb_eq in H1. subst b.
  destruct (IH x H2) as [y ->]. exists y. reflexivity.
Qed.

(** No name ends with two of the four extensions. *)
Lemma ends_with_extensions e1 e2 s :
  In e1 extensions -> In e2 extensions ->
  ends_with e1 s = true -> ends_with e2 s = true -> e1 = e2.
Proof.
  unfold ends_with. intros H1 H2 E1 E2.
  apply is_prefix_split in E1 as [y Hy]. rewrite Hy in E2.
  simpl in H1, H2.
  destruct H1 as [<-|[<-|[<-|[<-|[]]]]]; destruct H2 as [<-|[<-|[<-|[<-|[]]]]];
    solve [reflexivity | simpl in E2; discriminate E2].
Qed.

Lemma extensions_nodup : NoDup extensions.
Proof.
  unfold extensions. repeat constructor; simpl; intuition discriminate.
Qed.

Lemma rglob_name ext fs0 q : In q (rglob ext fs0) -> ends_with ext (file_name q) = true.
Proof.
  unfold rglob. intros H. apply in_map_iff in H as ([q' n] & Hq & Hin). simpl in Hq. subst q'.
  apply filter_In in Hin as [_ Hf]. exact Hf.
Qed.

Lemma count_ev_total_tail P evs n :
  P (PrintTotal n) = false -> count_ev P (evs ++ [PrintTotal n]) = count_ev P evs.
Proof. intros H. rewrite count_ev_app. unfold count_ev at 2. simpl. rewrite H. simpl. lia. Qed.

Lemma in_total_tail ev evs n :
  ev <> PrintTotal n -> In ev (evs ++ [PrintTotal n]) -> In ev evs.
Proof. intros Hne Hin. apply in_app_or in Hin as [Hin|[Hin|[]]]; [exact Hin | congruence]. Qed.

(** Everything one run does, seen from a path [q] and an inode [i]. *)
Lemma run_path q i fs0 s0 : exists n evs,
  fst (run fs0 s0) = inl tt /\
  final_fs fs0 s0 = fs0 /\
  log (snd (run fs0 s0)) = evs ++ [PrintTotal n] /\
  n = count_ev is_updated evs /\ count_ev is_total evs = 0 /\
  (forall r, In (OpenRead r) evs \/ In (OpenWrite r) evs \/ In (PrintUpdated r) evs ->
     (exists ext, In ext extensions /\ In r (rglob ext fs0)) /\
     should_process_file r = true /\ is_file r fs0 = true) /\
  (forall ext r, In ext extensions -> In r (rglob ext fs0) ->
     should_process_file r = true -> is_file r fs0 = true -> In (OpenRead r) evs) /\
  (NoDup (map fst fs0) -> count_ev (is_read q) evs <= 1 /\ count_ev (is_write q) evs <= 1) /\
  ((forall r, lookup r fs0 = Some (RegFile i) -> ~ In (OpenWrite r) evs) ->
     get_file i (final_inodes fs0 s0) = get_file i s0) /\
  (forall f, get_file i s0 = Some f -> kept_file f ->
     get_file i (final_inodes fs0 s0) = get_file i s0) /\
  (NoDup (map fst fs0) -> lookup q fs0 = Some (RegFile i) ->
   (forall r, lookup r fs0 = Some (RegFile i) -> r = q) ->
   In (PrintUpdated q) evs -> rewritten (get_file i s0) (get_file i (final_inodes fs0 s0))).
Proof.
  destruct (process_exts_path q i extensions 0 (mkSt fs0 s0 []))
    as (n & evs & H1 & H2 & H3 & H4 & H5 & H6 & H7 & H8 & H9 & H10 & H11).
  assert (Hdisj : forall e1 e2, In e1 extensions -> In e2 extensions ->
            In q (rglob e1 fs0) -> In q (rglob e2 fs0) -> e1 = e2).
  { intros e1 e2 He1 He2 Hq1 Hq2.
    apply (ends_with_extensions e1 e2 (file_name q) He1 He2); eapply rglob_name; eauto. }
  unfold final_fs, final_inodes, run, main, bind, emit.
  destruct (process_exts extensions 0 (mkSt fs0 s0 [])) as [r st1]. simpl in *. subst r.
  exists n, evs. split; [reflexivity|]. split; [exact H2|].
  split; [rewrite H3; reflexivity|]. split; [lia|]. split; [exact H5|].
  split; [exact H6|]. split; [exact H7|].
  split; [intros Hnd; apply H8; auto; exact extensions_nodup|].
  split; [exact H9|]. split; [exact H10|].
  intros Hnd. apply H11; auto. exact extensions_nodup.
Qed.

Lemma open_in_run_log fs0 s0 evs n q :
  log (snd (run fs0 s0)) = evs ++ [PrintTotal n] ->
  In (OpenRead q) (log (snd (run fs0 s0))) \/ In (OpenWrite q) (log (snd (run fs0 s0))) ->
  In (OpenRead q) evs \/ In (OpenWrite q) evs \/ In (PrintUpdated q) evs.
Proof.
  intros Hl. rewrite Hl.
  intros [H|H]; apply in_app_or in H as [H|[H|[]]]; auto; discriminate.
Qed.





Definition nm_path : path := [ "node_modules"; "pkg"; "index.js" ]%string.

(** [src/a.ts] (inode 1) and [node_modules/pkg/index.js] (inode 2), both
    with an MIT header. *)
Definition demo_tree : fsys :=
  [ (["src"]%string, Directory); (src_a, RegFile 1); (nm_path, RegFile 2) ].

Definition demo_files : store :=
  [ (1, rw_file (mit_header ++ body_text)); (2, rw_file (mit_header ++ body_text)) ].


(** ** Excluded paths *)

Definition nm_a : path := [ "node_modules"; "pkg"; "a.ts" ]%string.

(** [src/a.ts] is a symbolic link to [node_modules/pkg/a.ts]: both names
    resolve to inode 1. *)
Definition link_tree : fsys :=
  [ (["node_modules"]%string, Directory); (["node_modules"; "pkg"]%string, Directory);
    (nm_a, RegFile 1); (["src"]%string, Directory); (src_a, RegFile 1) ].

Definition link_files : store := [ (1, rw_file (mit_header ++ body_text)) ].

(** C6 (as stated, refuted): the run rewrites the file of the excluded
    path [node_modules/pkg/a.ts] through the link [src/a.ts]. *)
Lemma excluded_via_link_counterexample :
  should_process_file nm_a = false /\
  lookup nm_a link_tree = Some (RegFile 1) /\
  get_file 1 link_files = Some (rw_file (mit_header ++ body_text)) /\
  get_file 1 (final_inodes link_tree link_files) = Some (rw_file (REPLACEMENT ++ body_text)) /\
  get_file 1 (final_inodes link_tree link_files) <> get_file 1 link_files.
Proof.
  split; [vm_compute; reflexivity|]. split; [vm_compute; reflexivity|].
  split; [vm_compute; reflexivity|]. split; [vm_compute; reflexivity|].
  vm_compute. discriminate.
Qed.

(** C6 (amended): a path whose string contains one of the exclusion
    substrings is never opened, for reading or for writing, and its entry is
    the same after the run; the file it names is neither opened nor changed
    when every name of that file in the tree is excluded too (a symbolic or
    hard link from a processed path reaches it). *)
Theorem excluded_paths_untouched fs0 s0 q :
  should_process_file q = false ->
  ~ In (OpenRead q) (log (snd (run fs0 s0))) /\
  ~ In (OpenWrite q) (log (snd (run fs0 s0))) /\
  lookup q (final_fs fs0 s0) = lookup q fs0 /\
  (forall i, lookup q fs0 = Some (RegFile i) ->
     (forall p, lookup p fs0 = Some (RegFile i) -> should_process_file p = false) ->
     (forall p, lookup p fs0 = Some (RegFile i) ->
        ~ In (OpenRead p) (log (snd (run fs0 s0))) /\ ~ In (OpenWrite p) (log (snd (run fs0 s0)))) /\
     get_file i (final_inodes fs0 s0) = get_file i s0).
Proof.
  intros Hq.
  assert (Hno : forall p, should_process_file p = false ->
            ~ In (OpenRead p) (log (snd (run fs0 s0))) /\ ~ In (OpenWrite p) (log (snd (run fs0 s0)))).
  { intros p Hp. destruct (run_path p 0 fs0 s0) as (n & evs & _ & _ & Hl & _ & _ & Hopen & _).
    split; intros Hin;
      destruct (Hopen p (open_in_run_log fs0 s0 evs n p Hl (ltac:(auto)))) as (_ & Hs & _);
      congruence. }
  destruct (Hno q Hq) as [N1 N2].
  split; [exact N1|]. split; [exact N2|].
  split; [destruct (run_path q 0 fs0 s0) as (n & evs & _ & -> & _); reflexivity|].
  intros i Hi Hall. split; [intros p Hp; apply Hno; apply Hall; exact Hp|].
  destruct (run_path q i fs0 s0) as (n & evs & _ & _ & Hl & _ & _ & _ & _ & _ & H9 & _).
  apply H9. intros r Hr Hw. apply (proj2 (Hno r (Hall r Hr))).
  rewrite Hl. apply in_or_app. left. exact Hw.
Qed.

Lemma excluded_paths_untouched_witness :
  ~ In (OpenRead nm_path) (log (snd (run demo_tree demo_files))) /\
  ~ In (OpenWrite nm_path) (log (snd (run demo_tree demo_files))) /\
  lookup nm_path (final_fs demo_tree demo_files) = lookup nm_path demo_tree /\
  (forall i, lookup nm_path demo_tree = Some (RegFile i) ->
     (forall p, lookup p demo_tree = Some (RegFile i) -> should_process_file p = false) ->
     (forall p, lookup p demo_tree = Some (RegFile i) ->
        ~ In (OpenRead p) (log (snd (run demo_tree demo_files))) /\
        ~ In (OpenWrite p) (log (snd (run demo_tree demo_files)))) /\
     get_file i (final_inodes demo_tree demo_files) = get_file i demo_files).
Proof. apply excluded_paths_untouched. vm_compute. reflexivity. Defined.

(** C7: every path the run opens ends with one of the extensions [.ts],
    [.tsx], [.js], [.jsx] and is a regular file of the tree. *)
Theorem visited_paths_have_extension fs0 s0 q :
  In (OpenRead q) (log (snd (run fs0 s0))) \/ In (OpenWrite q) (log (snd (run fs0 s0))) ->
  (exists ext, In ext extensions /\ ends_with ext (file_name q) = true) /\
  is_file q fs0 = true.
Proof.
  intros Hin. destruct (run_path q 0 fs0 s0) as (n & evs & _ & _ & Hl & _ & _ & Hopen & _).
  destruct (Hopen q (open_in_run_log fs0 s0 evs n q Hl Hin)) as ((ext & Hext & Hg) & _ & Hf).
  split; [|exact Hf]. exists ext. split; [exact Hext | apply (rglob_name ext fs0 q Hg)].
Qed.

Lemma visited_paths_have_extension_witness :
  (exists ext, In ext extensions /\ ends_with ext (file_name src_a) = true) /\
  is_file src_a demo_tree = true.
Proof.
  apply (visited_paths_have_extension demo_tree demo_files src_a).
  left. vm_compute. left. reflexivity.
Defined.

(** C8: [update_file] never lets an exception out: an exception raised
    while reading or writing is reported with the path and the error and
    turns into [False]; the run then goes on, every candidate file is still
    opened, and the run ends normally. *)
Theorem errors_caught_per_file p st fs0 s0 :
  (exists b, fst (update_file p st) = inl b) /\
  (forall e st1, update_file_body p st = (inr e, st1) ->
     update_file p st = (inl false, mkSt (fs st1) (inodes st1) (log st1 ++ [PrintError p e]))) /\
  fst (run fs0 s0) = inl tt /\
  (forall ext q, In ext extensions -> In q (rglob ext fs0) ->
     should_process_file q = true -> is_file q fs0 = true ->
     In (OpenRead q) (log (snd (run fs0 s0)))).
Proof.
  split; [|split; [|split]].
  - destruct (update_file_cases p st) as (b & _ & Hb & _). eauto.
  - intros e st1 H. unfold update_file, try_except. rewrite H. reflexivity.
  - destruct (run_path p 0 fs0 s0) as (n & evs & H & _). exact H.
  - intros ext q Hext Hin Hs Hf.
    destruct (run_path q 0 fs0 s0) as (n & evs & _ & _ & Hl & _ & _ & _ & Hread & _).
    rewrite Hl. apply in_or_app. left. eapply Hread; eauto.
Qed.

(** ** Further properties of the script *)

Lemma is_prefix_refl s : is_prefix s s = true.
Proof. induction s as [|c s IH]; simpl; [reflexivity|]. rewrite Ascii.eqb_refl. exact IH. Qed.





Lemma rep_loop_cont g body k :
  (forall i k' e, body i k' = Some e -> exists j, i <= j /\ k' j = Some e) ->
  forall n i e, rep_loop g body k n i = Some e -> exists j, i <= j /\ k j = Some e.
Proof.
  intros Hb n. induction n as [|n IH]; intros i e H; simpl in H; [exists i; split; auto|].
  destruct g.
  - match type of H with context [body i ?c] => destruct (body i c) eqn:E end.
    + injection H as ->. apply Hb in E as (j & Hij & Hj).
      destruct (i <? j); [|discriminate]. apply IH in Hj as (j' & Hjj & Hk).
      exists j'. split; [lia | exact Hk].
    + exists i. split; auto.
  - destruct (k i) eqn:E.
    + injection H as <-. exists i. split; auto.
    + apply Hb in H as (j & Hij & Hj).
      destruct (i <? j); [|discriminate]. apply IH in Hj as (j' & Hjj & Hk).
      exists j'. split; [lia | exact Hk].
Qed.

(** A successful match hands its end index to the continuation. *)
Lemma m_cont r : forall t i k e, m t r i k = Some e -> exists j, i <= j /\ k j = Some e.
Proof.
  induction r as [| c | p | r1 IH1 r2 IH2 | g r IH]; intros t i k e H; cbn [m] in H.
  - exists i. auto.
  - destruct (nth_error t i); [|discriminate].
    destruct (Ascii.eqb c a); [|discriminate]. exists (S i). split; [lia | exact H].
  - destruct (nth_error t i); [|discriminate].
    destruct (p a); [|discriminate]. exists (S i). split; [lia | exact H].
  - apply IH1 in H as (j & Hij & H). apply IH2 in H as (j' & Hjj & H).
    exists j'. split; [lia | exact H].
  - eapply rep_loop_cont; [|exact H]. intros i' k' e' H'. eapply IH. exact H'.
Qed.

Lemma m_cat t r1 r2 i k e :
  m t (Cat r1 r2) i k = Some e -> exists j, i <= j /\ m t r2 j k = Some e.
Proof. cbn [m]. apply m_cont. Qed.

Lemma m_lit_cat t c r i k e :
  m t (Cat (Lit c) r) i k = Some e -> nth_error t i = Some c /\ m t r (S i) k = Some e.
Proof.
  cbn [m]. destruct (nth_error t i) as [c'|]; [|discriminate].
  destruct (Ascii.eqb c c') eqn:E; [|discriminate]. apply Ascii.eqb_eq in E. subst. auto.
Qed.

Lemma m_lit t c i k e :
  m t (Lit c) i k = Some e -> nth_error t i = Some c /\ k (S i) = Some e.
Proof.
  cbn [m]. destruct (nth_error t i) as [c'|]; [|discriminate].
  destruct (Ascii.eqb c c') eqn:E; [|discriminate]. apply Ascii.eqb_eq in E. subst. auto.
Qed.

Lemma skipn_nth {A} (t : list A) : forall i c, nth_error t i = Some c -> skipn i t = c :: skipn (S i) t.
Proof.
  induction t as [|x t IH]; intros [|i] c H; simpl in *; try discriminate.
  - injection H as ->. reflexivity.
  - apply IH. exact H.
Qed.

Lemma lit_app s1 s2 : lit (s1 ++ s2) = lit s1 ++ lit s2.
Proof. unfold lit. induction s1 as [|c s1 IH]; simpl; [reflexivity|]. rewrite IH. reflexivity. Qed.

Lemma is_prefix_app_l p : forall u v, is_prefix p u = true -> is_prefix p (u ++ v) = true.
Proof.
  induction p as [|a p IH]; intros [|b u] v H; simpl in *; try discriminate; auto.
  apply andb_true_iff in H as [H1 H2]. rewrite H1. simpl. apply IH. exact H2.
Qed.

Lemma contains_app_l x u v : contains x u = true -> contains x (u ++ v) = true.
Proof.
  induction u as [|c u IH]; intros H.
  - destruct x; simpl in H; [destruct v; reflexivity | discriminate].
  - change ((c :: u) ++ v) with (c :: (u ++ v)). cbn [contains] in *.
    apply orb_true_iff in H as [H|H]; apply orb_true_iff.
    + left. change (c :: u ++ v) with ((c :: u) ++ v). apply is_prefix_app_l. exact H.
    + right. apply IH. exact H.
Qed.

Lemma contains_app_r x u v : contains x v = true -> contains x (u ++ v) = true.
Proof.
  induction u as [|c u IH]; intros H; [exact H|].
  change ((c :: u) ++ v) with (c :: (u ++ v)). cbn [contains].
  rewrite IH by exact H. apply orb_true_r.
Qed.

Lemma contains_str_path x c p :
  In c p -> contains x (lit c) = true -> contains x (lit (str_path p)) = true.
Proof.
  induction p as [|a p IH]; intros Hin Hc; [destruct Hin|].
  destruct p as [|b p'].
  - destruct Hin as [<-|[]]. exact Hc.
  - change (str_path (a :: b :: p')) with (a ++ "/" ++ str_path (b :: p'))%string.
    rewrite !lit_app. destruct Hin as [<-|Hin].
    + apply contains_app_l. exact Hc.
    + apply contains_app_r, contains_app_r. apply IH; assumption.
Qed.

(** ** Properties of the script beyond the claims *)

(** X1: the run ends with the total line, printed once, and the total is
    the number of [Updated:] lines printed before it. *)
Theorem run_total_counts_updates fs0 s0 : exists evs n,
  log (snd (run fs0 s0)) = evs ++ [PrintTotal n] /\
  n = count_ev is_updated evs /\ count_ev is_total evs = 0.
Proof.
  destruct (run_path [] 0 fs0 s0) as (n & evs & _ & _ & H1 & H2 & H3 & _).
  exists evs, n. auto.
Qed.

(** X2: in a tree whose paths are distinct, a run opens each path at most
    once for reading and at most once for writing. *)
Theorem run_opens_each_path_once fs0 s0 q :
  NoDup (map fst fs0) ->
  count_ev (is_read q) (log (snd (run fs0 s0))) <= 1 /\
  count_ev (is_write q) (log (snd (run fs0 s0))) <= 1.
Proof.
  intros Hnd. destruct (run_path q 0 fs0 s0) as (n & evs & _ & _ & H1 & _ & _ & _ & _ & H5 & _).
  destruct (H5 Hnd) as (C1 & C2).
  rewrite H1, !count_ev_total_tail by reflexivity. auto.
Qed.

Lemma run_opens_each_path_once_witness :
  count_ev (is_read src_a) (log (snd (run demo_tree demo_files))) <= 1 /\
  count_ev (is_write src_a) (log (snd (run demo_tree demo_files))) <= 1.
Proof.
  apply run_opens_each_path_once. vm_compute.
  repeat constructor; simpl; intuition discriminate.
Defined.

(** X3: a run changes a file only through a name of it that it opens for
    writing: the file of inode [i] is unchanged when no path naming it is
    opened for writing (it is changed when a link from a processed path is
    opened, whatever its other names). *)
Theorem run_changes_only_opened_for_write fs0 s0 i :
  (forall p, lookup p fs0 = Some (RegFile i) -> ~ In (OpenWrite p) (log (snd (run fs0 s0)))) ->
  get_file i (final_inodes fs0 s0) = get_file i s0.
Proof.
  intros Hnw. destruct (run_path [] i fs0 s0) as (n & evs & _ & _ & H1 & _ & _ & _ & _ & _ & H9 & _).
  apply H9. intros r Hr Hw. apply (Hnw r Hr). rewrite H1. apply in_or_app. left. exact Hw.
Qed.

Lemma run_changes_only_opened_for_write_witness :
  get_file 2 (final_inodes demo_tree demo_files) = get_file 2 demo_files.
Proof.
  apply run_changes_only_opened_for_write.
  intros p Hp. cbn [lookup demo_tree] in Hp.
  destruct (path_eqb p ["src"]%string); [discriminate|].
  destruct (path_eqb p src_a); [discriminate|].
  destruct (path_eqb p nm_path) eqn:E; [|discriminate].
  apply path_eqb_true in E. subst p. vm_compute. intuition discriminate.
Defined.

(** X4: a run leaves unchanged every regular file it cannot read, cannot
    decode, may not write, whose text lacks the signature or has no header
    block, whatever names it has. *)
Theorem run_keeps_kept_files fs0 s0 i f :
  get_file i s0 = Some f -> kept_file f -> get_file i (final_inodes fs0 s0) = get_file i s0.
Proof.
  intros Hg Hk. destruct (run_path [] i fs0 s0) as (n & evs & _ & _ & _ & _ & _ & _ & _ & _ & _ & H10 & _).
  eapply H10; eauto.
Qed.

Definition read_only_tree : fsys := [ (src_a, RegFile 1) ].

Definition read_only_files : store :=
  [ (1, mkFile (Text (mit_header ++ body_text)) true false None) ].

Lemma run_keeps_kept_files_witness :
  get_file 1 (final_inodes read_only_tree read_only_files) = get_file 1 read_only_files.
Proof.
  apply (run_keeps_kept_files read_only_tree read_only_files 1
           (mkFile (Text (mit_header ++ body_text)) true false None)).
  - reflexivity.
  - right. right. left. reflexivity.
Defined.

(** X5: in a tree whose paths are distinct, a path reported as [Updated:]
    that is the only name of its regular file leaves that file holding the
    new text computed from its original text, which contained the signature
    and differs from it. *)
Theorem run_updated_rewritten fs0 s0 q i :
  NoDup (map fst fs0) -> lookup q fs0 = Some (RegFile i) ->
  (forall r, lookup r fs0 = Some (RegFile i) -> r = q) ->
  In (PrintUpdated q) (log (snd (run fs0 s0))) ->
  rewritten (get_file i s0) (get_file i (final_inodes fs0 s0)).
Proof.
  intros Hnd Hq Hu Hin.
  destruct (run_path q i fs0 s0) as (n & evs & _ & _ & H1 & _ & _ & _ & _ & _ & _ & _ & H11).
  apply H11; auto.
  rewrite H1 in Hin. apply (in_total_tail _ _ n); [discriminate | exact Hin].
Qed.

Lemma run_updated_rewritten_witness :
  rewritten (get_file 1 demo_files) (get_file 1 (final_inodes demo_tree demo_files)).
Proof.
  apply (run_updated_rewritten demo_tree demo_files src_a 1).
  - vm_compute. repeat constructor; simpl; intuition discriminate.
  - reflexivity.
  - intros r Hr. cbn [lookup demo_tree] in Hr.
    destruct (path_eqb r ["src"]%string); [discriminate|].
    destruct (path_eqb r src_a) eqn:E; [apply path_eqb_true; exact E|].
    destruct (path_eqb r nm_path); discriminate.
  - vm_compute. intuition.
Defined.


(** X7: when the path is missing or a broken link, is a directory or
    another entry that cannot be opened (a socket, a link loop), or names a
    regular file it cannot read or decode, [update_file] reports one error,
    never opens the path for writing, changes nothing and returns [False].
    (A character device such as [/dev/null] is read instead; named pipes
    are not modelled.) *)
Theorem update_file_read_failure p st :
  (lookup p (fs st) = None \/ lookup p (fs st) = Some Dangling \/
   lookup p (fs st) = Some Directory \/ lookup p (fs st) = Some OtherEntry \/
   exists i f, lookup p (fs st) = Some (RegFile i) /\ get_file i (inodes st) = Some f /\
     (readable f = false \/ payload f = Undecodable)) ->
  exists e, update_file p st =
    (inl false, mkSt (fs st) (inodes st) (log st ++ [OpenRead p; PrintError p e])).
Proof.
  intros H. unfold_script. simpl.
  destruct H as [H|[H|[H|[H|(i & f & H & Hg & [Hr|Hp])]]]]; rewrite H; simpl;
    [| | | | rewrite Hg, Hr; simpl | rewrite Hg; destruct (readable f); simpl; [rewrite Hp; simpl|]];
    eexists; rewrite <- app_assoc; reflexivity.
Qed.

Lemma update_file_read_failure_witness :
  exists e, update_file src_a (mkSt [] [] []) =
    (inl false, mkSt [] [] ([] ++ [OpenRead src_a; PrintError src_a e])).
Proof. apply (update_file_read_failure src_a (mkSt [] [] [])). left. reflexivity. Defined.

(** X8: the substitution changes the text exactly when the pattern matches
    somewhere in it. *)
Theorem substitute_changes_iff_match c :
  substitute c <> c <-> search c MIT_LICENSE_PATTERN <> None.
Proof.
  split.
  - intros Hne Hs. apply Hne. apply substitute_no_match. exact Hs.
  - intros Hs. destruct (search c MIT_LICENSE_PATTERN) as [[a b]|] eqn:E; [|congruence].
    rewrite (substitute_search _ _ _ E). apply substitute_changes. exact E.
Qed.

(** X9: every match of the pattern starts with [/**] and ends with a
    newline, and lies within the text. *)
Theorem pattern_match_shape t a b :
  search t MIT_LICENSE_PATTERN = Some (a, b) ->
  a < b <= List.length t /\ firstn 3 (skipn a t) = lit "/**" /\ nth_error t (b - 1) = Some nl.
Proof.
  intros Hs. destruct (search_spec _ _ _ _ Hs) as [Hm _].
  set (R := cats [ ws; Lit nl; ws; Lit "*"; ws;
         lits "Copyright (c) ";
         Cls is_digit; Cls is_digit; Cls is_digit; Cls is_digit;
         lits " Philip L. Giacalone"; ws; Lit nl; ws; Lit "*"; ws; Lit nl;
         Rep Lazy (cats [ws; Lit "*"; Rep Lazy (Cls any_char); Lit nl]);
         ws; lits "*/"; ws; Lit nl ]%char).
  assert (Hm2 : m t (Cat (Lit "/") (Cat (Lit "*") (Cat (Lit "*") R))) a (fun j => Some j) = Some b)
    by exact Hm.
  clear Hm.
  apply m_lit_cat in Hm2 as [N1 Hm2]. apply m_lit_cat in Hm2 as [N2 Hm2].
  apply m_lit_cat in Hm2 as [N3 Hm2].
  unfold R in Hm2. cbn [cats] in Hm2.
  repeat (apply m_cat in Hm2; destruct Hm2 as (? & ? & Hm2)).
  apply m_lit in Hm2 as [Nl Hb]. injection Hb as <-.
  match type of Nl with nth_error t ?j = _ =>
    assert (Hlt : j < List.length t) by (apply nth_error_Some; rewrite Nl; discriminate) end.
  split; [lia|]. split.
  - rewrite (skipn_nth _ _ _ N1), (skipn_nth _ _ _ N2), (skipn_nth _ _ _ N3). reflexivity.
  - rewrite Nat.sub_1_r. exact Nl.
Qed.

Lemma pattern_match_shape_witness :
  0 < List.length mit_header <= List.length mit_header /\
  firstn 3 (skipn 0 mit_header) = lit "/**" /\
  nth_error mit_header (List.length mit_header - 1) = Some nl.
Proof. apply pattern_match_shape. vm_compute. reflexivity. Defined.

(** X10: a path is skipped as soon as one of its components contains one
    of the exclusion strings anywhere (e.g. a directory [distribution]
    contains [dist]). *)
Theorem should_process_component p c excl :
  In excl exclusions -> In c p -> contains (lit excl) (lit c) = true ->
  should_process_file p = false.
Proof.
  intros Hx Hc Hcont. unfold should_process_file. apply negb_false_iff.
  apply existsb_exists. exists excl. split; [exact Hx|].
  apply (contains_str_path _ c); assumption.
Qed.

Lemma should_process_component_witness :
  should_process_file [ "src"; "distribution"; "a.ts" ]%string = false.
Proof.
  apply (should_process_component _ "distribution" "dist").
  - simpl. auto.
  - simpl. auto.
  - vm_compute. reflexivity.
Defined.

(** X11: no entry is listed by two of the four extension globs, so no
    path is considered twice in one run. *)
Theorem rglob_extensions_disjoint fs0 q e1 e2 :
  In e1 extensions -> In e2 extensions ->
  In q (rglob e1 fs0) -> In q (rglob e2 fs0) -> e1 = e2.
Proof.
  intros H1 H2 Hq1 Hq2.
  apply (ends_with_extensions e1 e2 (file_name q) H1 H2);
    [apply (rglob_name e1 fs0 q Hq1) | apply (rglob_name e2 fs0 q Hq2)].
Qed.

Lemma rglob_extensions_disjoint_witness : ".ts"%string = ".ts"%string.
Proof.
  apply (rglob_extensions_disjoint demo_tree src_a); vm_compute; auto.
Defined.

Lemma contains_split p : forall s, contains p s = true -> exists w y, s = w ++ p ++ y.
Proof.
  induction s as [|c s IH]; intros H.
  - destruct p; simpl in H; [exists [], []; reflexivity | discriminate].
  - cbn [contains] in H. apply orb_true_iff in H as [H|H].
    + apply is_prefix_split in H as [y ->]. exists [], y. reflexivity.
    + destruct (IH H) as (w & y & ->). exists (c :: w), y. reflexivity.
Qed.

Lemma contains_infix x w y : contains x (w ++ x ++ y) = true.
Proof.
  apply contains_app_r, contains_app_l.
  destruct x as [|c x]; [reflexivity|]. cbn [contains]. rewrite is_prefix_refl. reflexivity.
Qed.

(** X12: the entry ['electron/node_modules'] of the exclusion list never
    decides anything: every path it matches also contains
    ['node_modules']. *)
Theorem electron_node_modules_redundant p :
  should_process_file p =
  negb (existsb (fun excl => contains (lit excl) (lit (str_path p)))
    [ "node_modules"; "dist"; "electron/release"; "electron/app"; ".git";
      "update_licenses.py"; "update_licenses.sh" ]%string).
Proof.
  unfold should_process_file, exclusions. f_equal. cbn [existsb].
  assert (Himp : contains (lit "electron/node_modules") (lit (str_path p)) = true ->
                 contains (lit "node_modules") (lit (str_path p)) = true).
  { intros E. apply contains_split in E as (w & y & Hs).
    replace (lit "electron/node_modules") with (lit "electron/" ++ lit "node_modules") in Hs
      by reflexivity.
    rewrite <- app_assoc, app_assoc in Hs. rewrite Hs. apply contains_infix. }
  destruct (contains (lit "node_modules") (lit (str_path p))); [reflexivity|].
  destruct (contains (lit "electron/node_modules") (lit (str_path p))); [|reflexivity].
  discriminate (Himp eq_refl).
Qed.

(** X13: a run creates no entry, deletes none and changes none: every path
    names the same kind of entry as before, a regular file the same inode,
    so a run never replaces a link by a file or a file by a new one. *)
Theorem run_keeps_entries fs0 s0 : final_fs fs0 s0 = fs0.
Proof.
  destruct (run_path [] 0 fs0 s0) as (n & evs & _ & H & _). exact H.
Qed.

Section TrailingSpace.
Variable t : text.

Let K : nat -> option nat := fun i => m t (Lit nl) i (fun j => Some j).

Lemma ws_nl_none n : forall j,
  List.length t - j < n ->
  rep_loop Greedy (m t (Cls is_space)) K n j = None -> no_break_ahead t j.
Proof.
  induction n as [|n IH]; intros j Hn H; [lia|].
  cbn [rep_loop] in H. cbn [m] in H. unfold K in H at 2. cbn [m] in H.
  intros k Hjk Hsp Hk.
  destruct (nth_error t j) as [c|] eqn:Ej.
  2: { destruct (Nat.eq_dec k j) as [->|Hne]; [congruence|].
       destruct (Hsp j) as (c & Hc & _); [lia|]. congruence. }
  assert (Hlt : j < List.length t) by (apply nth_error_Some; congruence).
  destruct (Nat.eq_dec k j) as [->|Hne].
  - rewrite Hk in Ej. injection Ej as <-.
    replace (is_space nl) with true in H by reflexivity.
    destruct (j <? S j) eqn:E; [|apply Nat.ltb_ge in E; lia].
    rewrite Ascii.eqb_refl in H.
    match type of H with context [rep_loop ?g ?bd ?k n (S j)] =>
      destruct (rep_loop g bd k n (S j)) end; discriminate.
  - destruct (Hsp j) as (c' & Hc' & Hs); [lia|]. rewrite Hc' in Ej. injection Ej as ->.
    rewrite Hs in H.
    destruct (j <? S j) eqn:E; [|apply Nat.ltb_ge in E; lia].
    match type of H with context [rep_loop ?g ?bd ?k n (S j)] =>
      destruct (rep_loop g bd k n (S j)) eqn:Er end; [discriminate|].
    apply (IH (S j)) in Er; [|lia].
    apply (Er k); [lia| |exact Hk]. intros l Hl. apply Hsp. lia.
Qed.

Lemma ws_nl_some n : forall j b,
  List.length t - j < n ->
  rep_loop Greedy (m t (Cls is_space)) K n j = Some b -> no_break_ahead t b.
Proof.
  induction n as [|n IH]; intros j b Hn H; [lia|].
  cbn [rep_loop] in H. cbn [m] in H. unfold K in H at 2. cbn [m] in H.
  destruct (nth_error t j) as [c|] eqn:Ej; [|discriminate].
  assert (Hlt : j < List.length t) by (apply nth_error_Some; congruence).
  destruct (j <? S j) eqn:E; [|apply Nat.ltb_ge in E; lia].
  destruct (is_space c) eqn:Hs.
  - match type of H with context [rep_loop ?g ?bd ?k n (S j)] =>
      destruct (rep_loop g bd k n (S j)) eqn:Er end.
    + injection H as <-. apply (IH (S j)); [lia | exact Er].
    + destruct (Ascii.eqb nl c) eqn:Enl; [|discriminate]. injection H as <-.
      apply (ws_nl_none n); [lia | exact Er].
  - destruct (Ascii.eqb nl c) eqn:Enl; [|discriminate].
    apply Ascii.eqb_eq in Enl. subst c. discriminate Hs.
Qed.

Lemma ws_nl_end j b :
  m t (Cat ws (Lit nl)) j (fun j => Some j) = Some b -> no_break_ahead t b.
Proof.
  intros H. cbn [m] in H. unfold ws in H. cbn [m] in H.
  apply (ws_nl_some (S (List.length t - j)) j); [lia|]. exact H.
Qed.

End TrailingSpace.

(** X14: a match ends after the last line break of the whitespace that
    follows the closing [*/]: from its end no line break is reached through
    whitespace only.  So all blank lines after an old header are part of the
    match and are replaced. *)
Theorem pattern_match_eats_blank_lines t a b :
  search t MIT_LICENSE_PATTERN = Some (a, b) -> no_break_ahead t b.
Proof.
  intros Hs. destruct (search_spec _ _ _ _ Hs) as [Hm _].
  set (R := cats [ ws; Lit nl; ws; Lit "*"; ws;
         lits "Copyright (c) ";
         Cls is_digit; Cls is_digit; Cls is_digit; Cls is_digit;
         lits " Philip L. Giacalone"; ws; Lit nl; ws; Lit "*"; ws; Lit nl;
         Rep Lazy (cats [ws; Lit "*"; Rep Lazy (Cls any_char); Lit nl]);
         ws; lits "*/"; ws; Lit nl ]%char).
  assert (Hm2 : m t (Cat (lits "/**") R) a (fun j => Some j) = Some b) by exact Hm.
  clear Hm. unfold R in Hm2. cbn [cats] in Hm2.
  repeat (lazymatch type of Hm2 with
          | m _ (Cat ws (Lit _)) _ _ = _ => fail
          | _ => apply m_cat in Hm2; destruct Hm2 as (? & ? & Hm2)
          end).
  eapply ws_nl_end. exact Hm2.
Qed.

Lemma pattern_match_eats_blank_lines_witness :
  no_break_ahead (mit_header ++ [nl] ++ body_text) (S (List.length mit_header)).
Proof. apply (pattern_match_eats_blank_lines _ 0). vm_compute. reflexivity. Defined.
